(** * GoLinks: the query resolution engine

    A shallow embedding of [internal/service/link.go] (the link service:
    [GetLink], [UpdateLink], [GetAllKeywords] and their helpers), of the SQL
    of [internal/repository/shortcut.go] and of the repository mocks of
    [internal/service/link_test.go], with the properties of the resolution
    engine proved about them.

    Modelling conventions.

    - A Go [string] holding valid UTF-8 is the list of its code points
      ([rune]s).  [strings.TrimSpace] and [strings.Fields] work rune by rune
      with [unicode.IsSpace]; [HasPrefix], [HasSuffix], [Contains] and
      [ReplaceAll] compare bytes, which on valid UTF-8 is the same as
      comparing runes; [url.QueryEscape] works on the UTF-8 bytes of the
      string, which [utf8_encode] produces.
    - The empty string is [[]]; the other literals of the source are written
      with [str].
    - Go's [int] and SQLite's INTEGER are [Z]; no identifier gets near 2^63.
    - [time.Time] is an opaque number.
    - [GetLink] calls itself without bound on a cycle of aliases, so the
      embedding takes a recursion budget ([fuel]) and answers [None] when it
      is used up.
    - The calls a service method makes to its two repositories are recorded
      as a list of [event]s, next to the state of the query repository. *)

From Stdlib Require Import List ZArith NArith Bool Lia Arith.
From Stdlib Require Import Ascii String.
From Stdlib Require Import Sorted Permutation Relations.
Import ListNotations.

(* ================================================================== *)
(** * Package [strings] (Go standard library) *)

Module strings.

Definition rune := N.
Definition gostring := list rune.

(** String literals of the source: every character of the literal is ASCII. *)
Definition str (s : String.string) : gostring :=
  map N_of_ascii (list_ascii_of_string s).

Fixpoint eqb (a b : gostring) : bool :=
  match a, b with
  | [], [] => true
  | x :: a', y :: b' => N.eqb x y && eqb a' b'
  | _, _ => false
  end.

(** [unicode.IsSpace]: the White_Space property. *)
Definition IsSpace (r : rune) : bool :=
  ((9 <=? r) && (r <=? 13) || (r =? 32) || (r =? 0x85) || (r =? 0xA0)
   || (r =? 0x1680) || (0x2000 <=? r) && (r <=? 0x200a)
   || (r =? 0x2028) || (r =? 0x2029) || (r =? 0x202f) || (r =? 0x205f)
   || (r =? 0x3000))%N.

Fixpoint TrimLeftSpace (s : gostring) : gostring :=
  match s with
  | [] => []
  | r :: s' => if IsSpace r then TrimLeftSpace s' else s
  end.

Definition TrimRightSpace (s : gostring) : gostring :=
  rev (TrimLeftSpace (rev s)).

(** [strings.TrimSpace(s)]: [s] without leading and trailing white space. *)
Definition TrimSpace (s : gostring) : gostring :=
  TrimRightSpace (TrimLeftSpace s).

(** The loop of [strings.Fields]: [cur] holds, reversed, the runes of the
    field being read; it is empty between fields (Go's [start < 0]). *)
Fixpoint fields_from (cur : gostring) (s : gostring) : list gostring :=
  match s with
  | [] => match cur with [] => [] | _ => [rev cur] end
  | r :: s' =>
      if IsSpace r then
        match cur with
        | [] => fields_from [] s'
        | _ => rev cur :: fields_from [] s'
        end
      else fields_from (r :: cur) s'
  end.

(** [strings.Fields(s)]: the maximal runs of non-space runes of [s]. *)
Definition Fields (s : gostring) : list gostring := fields_from [] s.

(** [strings.Join(elems, sep)]. *)
Fixpoint Join (elems : list gostring) (sep : gostring) : gostring :=
  match elems with
  | [] => []
  | [e] => e
  | e :: rest => e ++ sep ++ Join rest sep
  end.

Fixpoint HasPrefix (s prefix : gostring) {struct prefix} : bool :=
  match prefix with
  | [] => true
  | p :: prefix' =>
      match s with
      | [] => false
      | c :: s' => N.eqb c p && HasPrefix s' prefix'
      end
  end.

Definition HasSuffix (s suffix : gostring) : bool :=
  HasPrefix (rev s) (rev suffix).

Fixpoint Contains (s substr : gostring) : bool :=
  HasPrefix s substr ||
  match s with
  | [] => false
  | _ :: s' => Contains s' substr
  end.

(** Replacement of the non-overlapping instances of a non-empty [old], left
    to right; [skip] counts the runes of a matched instance still to be
    passed over. *)
Fixpoint replace_from (skip : nat) (s old new : gostring) : gostring :=
  match s with
  | [] => []
  | c :: s' =>
      match skip with
      | S k => replace_from k s' old new
      | O =>
          if HasPrefix s old
          then new ++ replace_from (List.length old - 1) s' old new
          else c :: replace_from 0 s' old new
      end
  end.

(** [strings.ReplaceAll(s, old, new)].  An empty [old] matches at the start
    of the string and after every rune. *)
Definition ReplaceAll (s old new : gostring) : gostring :=
  match old with
  | [] => new ++ flat_map (fun c => c :: new) s
  | _ :: _ => replace_from 0 s old new
  end.

End strings.

(* ================================================================== *)
(** * Package [net/url] (Go standard library) *)

Module url.
Import strings.

Local Open Scope N_scope.

(** [utf8.AppendRune]: the bytes of a code point; a surrogate or a value
    above U+10FFFF is written as U+FFFD. *)
Definition utf8_encode (r : rune) : list N :=
  if r <=? 0x7F then [r]
  else if r <=? 0x7FF then
    [N.lor 0xC0 (N.shiftr r 6); N.lor 0x80 (N.land r 0x3F)]
  else if (0x10FFFF <? r) || (0xD800 <=? r) && (r <=? 0xDFFF) then
    [0xEF; 0xBF; 0xBD]
  else if r <=? 0xFFFF then
    [N.lor 0xE0 (N.shiftr r 12);
     N.lor 0x80 (N.land (N.shiftr r 6) 0x3F);
     N.lor 0x80 (N.land r 0x3F)]
  else
    [N.lor 0xF0 (N.shiftr r 18);
     N.lor 0x80 (N.land (N.shiftr r 12) 0x3F);
     N.lor 0x80 (N.land (N.shiftr r 6) 0x3F);
     N.lor 0x80 (N.land r 0x3F)].

(** [shouldEscape(c, encodeQueryComponent)]: everything but the unreserved
    characters of RFC 3986 is escaped. *)
Definition shouldEscape (c : N) : bool :=
  negb ((97 <=? c) && (c <=? 122) || (65 <=? c) && (c <=? 90)
        || (48 <=? c) && (c <=? 57)
        || (c =? 45) || (c =? 95) || (c =? 46) || (c =? 126)).

(** [upperhex[d]] for [d < 16]. *)
Definition upperhex (d : N) : N :=
  if d <? 10 then 48 + d else 65 + (d - 10).

Definition escape_byte (c : N) : gostring :=
  if c =? 32 then [43]
  else if shouldEscape c then [37; upperhex (N.shiftr c 4); upperhex (N.land c 15)]
  else [c].

(** [url.QueryEscape(s)]. *)
Definition QueryEscape (s : gostring) : gostring :=
  flat_map escape_byte (flat_map utf8_encode s).

End url.

(* ================================================================== *)
(** * Package [domain] *)

Module domain.
Import strings.

Definition Time := Z.

(** [domain.Shortcut]: one row of [linktable]. *)
Record Shortcut := {
  ID : Z;
  Word : gostring;
  Link : gostring;
  User : gostring;
  CreatedAt : Time
}.

(** [domain.Query]: one row of [queries]. *)
Record Query := {
  Query_ID : Z;
  Query_WordID : Z;
  Query_CreatedAt : Time
}.

(** [domain.LinkRequest]. *)
Record LinkRequest := {
  Request_Word : gostring;
  Request_Link : gostring
}.

(** [domain.KeywordInfo]. *)
Record KeywordInfo := {
  Keyword_Word : gostring;
  Keyword_Link : gostring;
  Keyword_CreatedAt : Time
}.

(** Go's [error] values that the service makes or passes on. *)
Inductive error :=
| InvalidQueryError (Message : gostring)      (* service.InvalidQueryError *)
| Errorf (context : gostring) (cause : error) (* fmt.Errorf("<context>: %w", cause) *)
| StorageError (text : gostring).             (* an error of database/sql *)

Inductive result (A : Type) :=
| Ok (a : A)
| Err (e : error).
Arguments Ok {A} a.
Arguments Err {A} e.

End domain.

(* ================================================================== *)
(** * Package [repository]: the SQL of [shortcut.go] and [query.go] *)

Module repository.
Import strings domain.

(** The table [linktable] with the counter SQLite keeps for its
    [INTEGER PRIMARY KEY AUTOINCREMENT] column, and the database clock that
    [CURRENT_TIMESTAMP] reads. *)
Record ShortcutRepository := {
  linktable : list Shortcut;
  sqlite_sequence : Z;
  current_timestamp : Time
}.

(** [ORDER BY id DESC LIMIT 1], also what [MAX(id)] selects in a group. *)
Fixpoint max_id_row (rows : list Shortcut) : option Shortcut :=
  match rows with
  | [] => None
  | s :: rows' =>
      match max_id_row rows' with
      | None => Some s
      | Some m => if (ID s <? ID m)%Z then Some m else Some s
      end
  end.

(** [WHERE word = ?] *)
Definition where_word (word : gostring) (rows : list Shortcut) : list Shortcut :=
  filter (fun s => eqb (Word s) word) rows.

(** [SELECT id, word, link, user, created_at FROM linktable
     WHERE word = ? ORDER BY id DESC LIMIT 1]; [sql.ErrNoRows] is [nil, nil].
    This is the query on an open connection: the error [QueryRowContext]
    and [Scan] give for a closed or locked database is not in the table and
    has no place here; the properties of a lookup are stated of an answer
    [Ok _]. *)
Definition ShortcutRepository_GetByWord (r : ShortcutRepository) (word : gostring)
  : result (option Shortcut) :=
  Ok (max_id_row (where_word word (linktable r))).

Definition max_rowid (rows : list Shortcut) : Z :=
  fold_right (fun s m => Z.max (ID s) m) 0%Z rows.

(** [INSERT INTO linktable (word, link, user, created_at)
     VALUES (?, ?, ?, CURRENT_TIMESTAMP)]; the new id, which
    [LastInsertId] reports, is one more than the largest ever used;
    [shortcut.ID] is set to it.  This is the statement on an open
    connection with room for a row: the errors of [ExecContext] and
    [LastInsertId] (a closed or locked database, a full disk, a rowid past
    [2^63-1]) are not in the table and have no place here; the properties
    of a creation are stated of one that answered [Ok _]. *)
Definition ShortcutRepository_Create (r : ShortcutRepository) (shortcut : Shortcut)
  : ShortcutRepository * result Shortcut :=
  let id := (Z.max (sqlite_sequence r) (max_rowid (linktable r)) + 1)%Z in
  let row := {| ID := id; Word := Word shortcut; Link := Link shortcut;
                User := User shortcut; CreatedAt := current_timestamp r |} in
  ({| linktable := linktable r ++ [row];
      sqlite_sequence := id;
      current_timestamp := current_timestamp r |},
   Ok {| ID := id; Word := Word shortcut; Link := Link shortcut;
         User := User shortcut; CreatedAt := CreatedAt shortcut |}).

(** The keys of [GROUP BY word]. *)
Fixpoint distinct (ws : list gostring) : list gostring :=
  match ws with
  | [] => []
  | w :: ws' => w :: filter (fun v => negb (eqb v w)) (distinct ws')
  end.

Definition option_list {A} (o : option A) : list A :=
  match o with Some a => [a] | None => [] end.

(** [ORDER BY max_id DESC] *)
Fixpoint insert_desc (x : Shortcut) (l : list Shortcut) : list Shortcut :=
  match l with
  | [] => [x]
  | y :: l' => if (ID y <=? ID x)%Z then x :: l else y :: insert_desc x l'
  end.

Definition order_by_id_desc (l : list Shortcut) : list Shortcut :=
  fold_right insert_desc [] l.

(** [SELECT word, link, created_at, MAX(id) as max_id FROM linktable
     GROUP BY word ORDER BY max_id DESC]: in SQLite the bare columns of a
    group come from the row that holds the maximum. *)
Definition select_latest_per_word (rows : list Shortcut) : list Shortcut :=
  order_by_id_desc
    (flat_map (fun w => option_list (max_id_row (where_word w rows)))
              (distinct (map Word rows))).

Definition scan_keyword (s : Shortcut) : KeywordInfo :=
  {| Keyword_Word := Word s; Keyword_Link := Link s;
     Keyword_CreatedAt := CreatedAt s |}.

Definition ShortcutRepository_GetAllKeywords (r : ShortcutRepository)
  : result (list KeywordInfo) :=
  Ok (map scan_keyword (select_latest_per_word (linktable r))).

(** What the schema gives for [linktable]: the ids are positive, pairwise
    different (PRIMARY KEY), and none is above the counter. *)
Definition well_formed (r : ShortcutRepository) : Prop :=
  NoDup (map ID (linktable r)) /\
  Forall (fun s => (0 < ID s <= sqlite_sequence r)%Z) (linktable r).

(** [mockQueryRepository] of [link_test.go]: [Create] fails with
    [createErr] when it is set, and appends a row otherwise. *)
Record mockQueryRepository := {
  queries : list Query;
  createErr : option error;
  clock : Time
}.

Definition mockQueryRepository_Create (m : mockQueryRepository) (wordID : Z)
  : mockQueryRepository * option error :=
  match createErr m with
  | Some err => (m, Some err)
  | None =>
      ({| queries := queries m ++
                     [{| Query_ID := Z.of_nat (List.length (queries m)) + 1;
                         Query_WordID := wordID;
                         Query_CreatedAt := clock m |}];
          createErr := None;
          clock := clock m |}, None)
  end.

End repository.

(* ================================================================== *)
(** * Package [service]: [link.go] *)

Module service.
Import strings domain.

(** [service.ShortcutRepository], the interface. *)
Class ShortcutRepository (R : Type) := {
  shortcutRepo_GetByWord : R -> gostring -> result (option Shortcut);
  shortcutRepo_Create : R -> Shortcut -> R * result Shortcut;
  shortcutRepo_GetAllKeywords : R -> result (list KeywordInfo)
}.

(** [service.QueryRepository], the interface ([GetRecentQueries], which the
    resolution does not call, is left out). *)
Class QueryRepository (Q : Type) := {
  queryRepo_Create : Q -> Z -> Q * option error
}.

(** A call of the service to one of its repositories, with its answer. *)
Inductive event :=
| CallGetByWord (word : gostring) (answer : result (option Shortcut))
| CallQueryCreate (wordID : Z) (answer : option error).

(** [isURL] *)
Definition isURL (link : gostring) : bool :=
  HasPrefix link (str "http://") || HasPrefix link (str "https://").

(** [processResultLink] *)
Definition processResultLink (link searchTerm : gostring) : gostring :=
  let searchTerm := ReplaceAll searchTerm (str "{*}") [] in
  let searchTerm := TrimSpace searchTerm in
  let searchTerm := url.QueryEscape searchTerm in
  let resultLink := ReplaceAll link (str "{*}") searchTerm in
  TrimSpace resultLink.

(** [moveLastWord] *)
Definition moveLastWord (moveFrom moveTo : gostring) : gostring * gostring :=
  let moveFromWords := Fields moveFrom in
  match moveFromWords with
  | [] => (moveFrom, moveTo)
  | _ :: _ =>
      let lastWord := last moveFromWords [] in
      let moveToWords := Fields moveTo in
      let moveFromOut := Join (removelast moveFromWords) (str " ") in
      let moveToOut := Join (lastWord :: moveToWords) (str " ") in
      (moveFromOut, moveToOut)
  end.

(** [validateLinkRequest]: [req] is a copy, the trimmed fields do not reach
    the caller. *)
Definition validateLinkRequest (req : LinkRequest) : option error :=
  let Word := TrimSpace (Request_Word req) in
  let Link := TrimSpace (Request_Link req) in
  if eqb Word [] then
    Some (InvalidQueryError (str "No word given, cannot setup a golink"))
  else if HasSuffix Word (str "/") then
    Some (InvalidQueryError (str "Words ending in a '/' are not supported"))
  else if eqb Link [] then
    Some (InvalidQueryError (str "No link given, cannot setup a golink"))
  else if eqb Link Word then
    Some (InvalidQueryError
            (str "Word points to itself, will cause a recursive lookup"))
  else None.

Section LinkService.
Context {R Q : Type} {shortcutRepo : ShortcutRepository R}
        {queryRepo : QueryRepository Q}.

(** What a call leaves behind: the query repository, the repository
    calls made, and the value returned ([None]: the budget ran out). *)
Definition run (A : Type) : Type := (Q * list event * option A)%type.

Definition after {A} (evs : list event) (r : run A) : run A :=
  let '(q, tr, a) := r in (q, evs ++ tr, a).

(** [LinkService.GetLink] *)
Fixpoint GetLink (fuel : nat) (sr : R) (q : Q) (word searchTerm : gostring)
  : run (result gostring) :=
  match fuel with
  | O => (q, [], None)
  | S fuel' =>
      let word := TrimSpace word in
      match shortcutRepo_GetByWord sr word with
      | Err err =>
          (q, [CallGetByWord word (Err err)],
           Some (Err (Errorf (str "failed to get shortcut") err)))
      | Ok None =>
          if Contains word (str " ") then
            let (newWord, newSearchTerm) := moveLastWord word searchTerm in
            after [CallGetByWord word (Ok None)]
                  (GetLink fuel' sr q newWord newSearchTerm)
          else
            let query := Join [word; searchTerm] (str " ") in
            (q, [CallGetByWord word (Ok None)],
             Some (Err (InvalidQueryError
                          (str "Unable to find link for query " ++ query))))
      | Ok (Some shortcut) =>
          (* the error of the log is dropped *)
          let (q', err) := queryRepo_Create q (ID shortcut) in
          let calls := [CallGetByWord word (Ok (Some shortcut));
                        CallQueryCreate (ID shortcut) err] in
          if negb (isURL (Link shortcut)) then
            after calls (GetLink fuel' sr q' (Link shortcut) searchTerm)
          else
            let resultLink := processResultLink (Link shortcut) searchTerm in
            (q', calls, Some (Ok resultLink))
      end
  end.

(** The query of a request, as [RedirectHandler] passes it: [GetLink] with
    the path of the request as the word and the empty search term. *)
Definition Resolve (fuel : nat) (sr : R) (q : Q) (query : gostring)
  : run (result gostring) :=
  GetLink fuel sr q query [].

(** [LinkService.UpdateLink]; [now] is [time.Now()]. *)
Definition UpdateLink (sr : R) (req : LinkRequest) (userID : gostring)
           (now : Time) : R * option error :=
  match validateLinkRequest req with
  | Some err => (sr, Some err)
  | None =>
      if negb (isURL (Request_Link req)) then
        (sr, Some (InvalidQueryError
                     (str "URL must start with http:// or https://")))
      else
        let shortcut := {| ID := 0; Word := Request_Word req;
                           Link := Request_Link req; User := userID;
                           CreatedAt := now |} in
        match shortcutRepo_Create sr shortcut with
        | (sr', Err err) =>
            (sr', Some (Errorf (str "failed to create shortcut") err))
        | (sr', Ok _) => (sr', None)
        end
  end.

(** [LinkService.GetAllKeywords] *)
Definition GetAllKeywords (sr : R) : result (list KeywordInfo) :=
  match shortcutRepo_GetAllKeywords sr with
  | Err err => Err err
  | Ok keywords => Ok (filter (fun keyword => isURL (Keyword_Link keyword)) keywords)
  end.

End LinkService.

(** The result, the calls and the final query repository of a run. *)
Definition returned {Q A} (r : Q * list event * option A) : option A := snd r.
Definition calls {Q A} (r : Q * list event * option A) : list event := snd (fst r).
Definition query_log {Q A} (r : Q * list event * option A) : Q := fst (fst r).

End service.

(** The repositories of package [repository] implement the interfaces. *)
#[export] Instance sql_ShortcutRepository
  : service.ShortcutRepository repository.ShortcutRepository := {
  shortcutRepo_GetByWord := repository.ShortcutRepository_GetByWord;
  shortcutRepo_Create := repository.ShortcutRepository_Create;
  shortcutRepo_GetAllKeywords := repository.ShortcutRepository_GetAllKeywords
}.

#[export] Instance mock_QueryRepository
  : service.QueryRepository repository.mockQueryRepository := {
  queryRepo_Create := repository.mockQueryRepository_Create
}.

(* ================================================================== *)
(** * Package [repository]: [query.go] on the database of [Migrate] *)

Module database.
Import strings domain repository.

(** The two tables that [Migrate] creates and the repositories share:
    [linktable], with its counter and the clock, and [queries], with the
    counter of its own [AUTOINCREMENT] key. *)
Record Database := {
  shortcuts : repository.ShortcutRepository;
  queries_table : list Query;
  queries_sequence : Z
}.

Definition max_query_id (rows : list Query) : Z :=
  fold_right (fun row m => Z.max (Query_ID row) m) 0%Z rows.

(** [FOREIGN KEY (word_id) REFERENCES linktable(id)]; [NewSQLiteDB] opens
    the database with [_foreign_keys=on]. *)
Definition references_linktable (db : Database) (wordID : Z) : bool :=
  existsb (fun s => Z.eqb (ID s) wordID) (linktable (shortcuts db)).

(** [QueryRepository.Create]:
    [INSERT INTO queries (word_id, created_at) VALUES (?, CURRENT_TIMESTAMP)];
    the statement fails when [word_id] is the id of no row of [linktable]. *)
Definition QueryRepository_Create (db : Database) (wordID : Z)
  : Database * option error :=
  if references_linktable db wordID then
    let id := (Z.max (queries_sequence db) (max_query_id (queries_table db)) + 1)%Z in
    ({| shortcuts := shortcuts db;
        queries_table := queries_table db ++
                         [{| Query_ID := id; Query_WordID := wordID;
                             Query_CreatedAt := current_timestamp (shortcuts db) |}];
        queries_sequence := id |}, None)
  else
    (db, Some (Errorf (str "failed to create query log")
                      (StorageError (str "FOREIGN KEY constraint failed")))).

End database.

#[export] Instance sql_QueryRepository
  : service.QueryRepository database.Database := {
  queryRepo_Create := database.QueryRepository_Create
}.

(* ================================================================== *)
(** * Package [handlers]: [RedirectHandler] and [UpdateLinkHandler] *)

Module handlers.
Import strings domain service.

(** [strings.TrimSuffix(s, suffix)] *)
Definition TrimSuffix (s suffix : gostring) : gostring :=
  if HasSuffix s suffix
  then firstn (List.length s - List.length suffix) s
  else s.

(** What a handler answers with: [http.Redirect(w, r, url, code)],
    [http.Error(w, text, code)], or a body written with status 200. *)
Inductive response :=
| HttpRedirect (url : gostring) (code : Z)
| HttpError (text : gostring) (code : Z)
| HttpWrite (contentType body : gostring).

Definition StatusFound : Z := 302.
Definition StatusBadRequest : Z := 400.
Definition StatusInternalServerError : Z := 500.

(** [config.Config]: the field the two handlers read. *)
Record Config := {
  BaseURL : gostring
}.

(** [Handler.getUserID] *)
Definition getUserID : gostring := str "DefaultUser".

Section Handler.
Context {R Q : Type} {shortcutRepo : ShortcutRepository R}
        {queryRepo : QueryRepository Q}.

(** [Handler.RedirectHandler]; [path] is the route variable of
    [/query/{path:.*}].  [None]: the budget of [GetLink] ran out. *)
Definition RedirectHandler (fuel : nat) (config : Config) (sr : R) (q : Q)
           (path : gostring) : Q * option response :=
  let queryPath := TrimSuffix path (str "/") in
  let '(q', _, answer) := GetLink fuel sr q queryPath [] in
  match answer with
  | None => (q', None)
  | Some (Err (InvalidQueryError _)) =>
      let redirectURL := BaseURL config ++ str "/homepage/?missing=" ++ queryPath in
      (q', Some (HttpRedirect redirectURL StatusFound))
  | Some (Err _) =>
      (q', Some (HttpError (str "Internal server error") StatusInternalServerError))
  | Some (Ok targetURL) => (q', Some (HttpRedirect targetURL StatusFound))
  end.

(** [Handler.UpdateLinkHandler]; [form] is [None] when [r.ParseForm] fails,
    and holds the values of the fields [word] and [link] otherwise, the
    empty string for a field that is absent; the final [w.Write] is taken
    to succeed. *)
Definition UpdateLinkHandler (sr : R) (form : option (gostring * gostring))
           (now : Time) : R * response :=
  match form with
  | None => (sr, HttpError (str "Invalid form data") StatusBadRequest)
  | Some (word, link) =>
      let req := {| Request_Word := TrimSpace word;
                    Request_Link := TrimSpace link |} in
      let userID := getUserID in
      match UpdateLink sr req userID now with
      | (sr', Some (InvalidQueryError Message)) =>
          (sr', HttpError Message StatusBadRequest)
      | (sr', Some _) =>
          (sr', HttpError (str "Internal server error") StatusInternalServerError)
      | (sr', None) =>
          (sr', HttpWrite (str "text/plain") (str "Link added successfully!"))
      end
  end.

End Handler.

End handlers.

(* ================================================================== *)
(** * Vocabulary of the properties *)

Import strings domain repository service.
Local Open Scope string_scope.
Local Open Scope list_scope.

Definition nospace (w : gostring) : Prop := Forall (fun r => IsSpace r = false) w.

(** A word: what [Fields] returns, a non-empty run without white space. *)
Definition is_word (w : gostring) : Prop := w <> [] /\ nospace w.

(** No white space at either end. *)
Definition trimmed (s : gostring) : Prop :=
  match s with
  | [] => True
  | r :: _ => IsSpace r = false /\ IsSpace (last s 0%N) = false
  end.

(** The fields [fields_from] gives for a finished run. *)
Definition emit (f : gostring) : list gostring :=
  match f with [] => [] | _ => [f] end.

(** The substitution token. *)
Definition token : gostring := str "{*}".

Definition token_free (p : gostring) : Prop := Contains p token = false.

(** The heads looked up without success at the start of a run, in order:
    the attempts of the word-splitting retry loop. *)
Fixpoint leading_misses (tr : list event) : list gostring :=
  match tr with
  | CallGetByWord w (Ok None) :: tr' => w :: leading_misses tr'
  | _ => []
  end.

(** A list of heads in which each next one is the one before without its
    last word, the words that remain joined by single spaces. *)
Inductive shrinking : list gostring -> Prop :=
| shrinking_nil : shrinking []
| shrinking_one h : shrinking [h]
| shrinking_cons h h' l :
    trimmed h ->
    Contains h (str " ") = true ->
    h' = Join (removelast (Fields h)) (str " ") ->
    shrinking (h' :: l) ->
    shrinking (h :: h' :: l).

(** Some call of the run is not a failed lookup. *)
Definition left_retry_loop (tr : list event) : Prop :=
  List.length (leading_misses tr) < List.length tr.

(** The mappings the keyword store returned, in order. *)
Fixpoint hits (tr : list event) : list Shortcut :=
  match tr with
  | [] => []
  | CallGetByWord _ (Ok (Some s)) :: tr' => s :: hits tr'
  | _ :: tr' => hits tr'
  end.

(** The identifiers the usage log was asked to record, in order. *)
Fixpoint attempts (tr : list event) : list Z :=
  match tr with
  | [] => []
  | CallQueryCreate id _ :: tr' => id :: attempts tr'
  | _ :: tr' => attempts tr'
  end.

(** The lookups of a run, without the calls to the usage log. *)
Fixpoint lookups (tr : list event) : list event :=
  match tr with
  | [] => []
  | CallQueryCreate _ _ :: tr' => lookups tr'
  | e :: tr' => e :: lookups tr'
  end.

(** Every lookup that returned a mapping is followed at once by one call to
    the usage log for its identifier, and the log is called nowhere else. *)
Fixpoint well_logged (tr : list event) : bool :=
  match tr with
  | [] => true
  | CallGetByWord _ (Ok (Some s)) :: tr1 =>
      match tr1 with
      | CallQueryCreate id _ :: tr2 => Z.eqb id (ID s) && well_logged tr2
      | _ => false
      end
  | CallGetByWord _ _ :: tr1 => well_logged tr1
  | CallQueryCreate _ _ :: _ => false
  end.

(** The usage log after it has been asked, from the state [q] on, to record
    the identifiers [ids] one after the other. *)
Definition replay {Q} {queryRepo : QueryRepository Q} (q : Q) (ids : list Z) : Q :=
  fold_left (fun q id => fst (queryRepo_Create q id)) ids q.

(** The answers written down in a run are the answers the usage log gives
    when its calls are made one after the other from the state [q] on. *)
Fixpoint answered {Q} {queryRepo : QueryRepository Q} (q : Q) (tr : list event)
  : Prop :=
  match tr with
  | [] => True
  | CallQueryCreate id answer :: tr' =>
      answer = snd (queryRepo_Create q id)
      /\ answered (fst (queryRepo_Create q id)) tr'
  | CallGetByWord _ _ :: tr' => answered q tr'
  end.

(** One recursive call of [GetLink] from the pair (head, tail) to the next:
    a retry after a failed lookup, or the step from an alias to its target. *)
Inductive recurses {R} {shortcutRepo : ShortcutRepository R} (sr : R)
  : gostring * gostring -> gostring * gostring -> Prop :=
| recurses_split word searchTerm :
    shortcutRepo_GetByWord sr (TrimSpace word) = Ok None ->
    Contains (TrimSpace word) (str " ") = true ->
    recurses sr (word, searchTerm) (moveLastWord (TrimSpace word) searchTerm)
| recurses_alias word searchTerm shortcut :
    shortcutRepo_GetByWord sr (TrimSpace word) = Ok (Some shortcut) ->
    isURL (Link shortcut) = false ->
    recurses sr (word, searchTerm) (Link shortcut, searchTerm).

(** The pairs (head, tail) a call of [GetLink] comes to. *)
Definition reaches {R} {shortcutRepo : ShortcutRepository R} (sr : R) :=
  clos_refl_trans_1n (gostring * gostring) (recurses sr).

(** The value [processResultLink] puts in place of a token: its first
    three lines. *)
Definition encoded_tail (searchTerm : gostring) : gostring :=
  url.QueryEscape (TrimSpace (ReplaceAll searchTerm token [])).

(** The destination as the specification words it: the target with every
    token replaced by the URL-encoded tail, trimmed. *)
Definition destination_as_specified (target tail : gostring) : gostring :=
  TrimSpace (ReplaceAll target token (url.QueryEscape tail)).

(** The order of [ORDER BY max_id DESC]. *)
Definition id_desc (a b : Shortcut) : Prop := (ID b <= ID a)%Z.
Definition id_strictly_desc (a b : Shortcut) : Prop := (ID b < ID a)%Z.

(** The rows of the groups of [GROUP BY word], before they are ordered. *)
Definition group_rows (rows : list Shortcut) (keys : list gostring) : list Shortcut :=
  flat_map (fun w => option_list (max_id_row (where_word w rows))) keys.

Definition not_found_prefix : gostring := str "Unable to find link for query ".

(** The messages of the five checks of [UpdateLink], in the order of the
    checks. *)
Definition reason_empty_word : gostring :=
  str "No word given, cannot setup a golink".
Definition reason_trailing_slash : gostring :=
  str "Words ending in a '/' are not supported".
Definition reason_empty_link : gostring :=
  str "No link given, cannot setup a golink".
Definition reason_self_reference : gostring :=
  str "Word points to itself, will cause a recursive lookup".
Definition reason_not_url : gostring :=
  str "URL must start with http:// or https://".

(** [UpdateLink] refuses the request with this reason and leaves the
    keyword store as it is. *)
Definition rejects {R} {shortcutRepo : ShortcutRepository R}
           (sr : R) (req : LinkRequest) (userID : gostring) (now : Time)
           (reason : gostring) : Prop :=
  UpdateLink sr req userID now = (sr, Some (InvalidQueryError reason)).

(** The shortcut [UpdateLink] hands to the keyword store. *)
Definition new_shortcut (req : LinkRequest) (userID : gostring) (now : Time)
  : Shortcut :=
  {| ID := 0; Word := Request_Word req; Link := Request_Link req;
     User := userID; CreatedAt := now |}.

(** ** Stores of the examples *)

Module examples.

Definition row (id : Z) (word link : String.string) : Shortcut :=
  {| ID := id; Word := str word; Link := str link; User := str "testuser";
     CreatedAt := 0%Z |}.

Definition table (rows : list Shortcut) : repository.ShortcutRepository :=
  {| linktable := rows; sqlite_sequence := max_rowid rows;
     current_timestamp := 0%Z |}.

Definition usage_log (err : option error) : mockQueryRepository :=
  {| queries := []; createErr := err; clock := 0%Z |}.

Definition search_table :=
  table [row 1 "search" "https://google.com/search?q={*}"].

Definition chain_table :=
  table [row 1 "d" "docs"; row 2 "docs" "https://docs.example.com"].

(** An alias next to a keyword of two words. *)
Definition shadow_table :=
  table [row 1 "d" "docs"; row 2 "docs" "https://docs.example.com/{*}";
         row 3 "docs api" "https://other.example.com"].

Definition search_link : gostring := str "https://google.com/search?q={*}".

Definition padded_link : gostring := str "https://x.example.com ".

Definition padded_table := table [row 1 "x" "https://x.example.com "].

Definition api_table :=
  table [row 1 "api" "https://example.com/{*}/docs/{*}"].

(** A usage log whose [Create] fails. *)
Definition failing_log : mockQueryRepository :=
  usage_log (Some (StorageError (str "database is locked"))).

Definition a_table := table [row 1 "a" "https://a.example.com"].

(** The query [a<TAB>b]. *)
Definition a_tab_b : gostring := str "a" ++ [9%N] ++ str "b".

Definition history_table :=
  table [row 1 "a" "x"; row 2 "b" "http://b"; row 3 "a" "http://a";
         row 4 "c" "http://c"; row 5 "b" "bb"].

End examples.

(* ================================================================== *)
(** * Vocabulary of the further properties *)

Import database handlers.

(** The head of [i] words that the retry loop tries for a query: the
    trimmed query itself when [i] is the number of its words, and its first
    [i] words joined by single spaces otherwise. *)
Definition candidate (query : gostring) (i : nat) : gostring :=
  if Nat.eqb i (List.length (Fields query)) then TrimSpace query
  else Join (firstn i (Fields query)) (str " ").

(** The characters [url.QueryEscape] writes: the unreserved ones, [+] for a
    space and [%] with two hexadecimal digits. *)
Definition escaped_rune (c : rune) : bool :=
  negb (url.shouldEscape c) || N.eqb c 43 || N.eqb c 37.

(** An upper-case hexadecimal digit. *)
Definition hexdigit (c : rune) : bool :=
  ((48 <=? c) && (c <=? 57) || (65 <=? c) && (c <=? 70))%N.

(** What [url.QueryEscape] writes for one byte: the byte itself when it is
    unreserved, [+] for a space, [%] and two hexadecimal digits for the
    rest. *)
Definition escape_piece (p : gostring) : bool :=
  match p with
  | [c] => negb (url.shouldEscape c) || N.eqb c 43
  | [c; high; low] => N.eqb c 37 && hexdigit high && hexdigit low
  | _ => false
  end.

(** The calls to the usage log that were answered with an error. *)
Fixpoint failed_attempts (tr : list event) : list Z :=
  match tr with
  | [] => []
  | CallQueryCreate id (Some _) :: tr' => id :: failed_attempts tr'
  | _ :: tr' => failed_attempts tr'
  end.

(** The words that were looked up, in order. *)
Fixpoint looked_up (tr : list event) : list gostring :=
  match tr with
  | [] => []
  | CallGetByWord w _ :: tr' => w :: looked_up tr'
  | _ :: tr' => looked_up tr'
  end.

(** A table without aliases: every target is an absolute URL. *)
Definition alias_free (r : repository.ShortcutRepository) : Prop :=
  Forall (fun s => isURL (Link s) = true) (linktable r).

(** The tables that come from the empty one by requests that [UpdateLink]
    accepted, at any times of the database clock. *)
Inductive populated : repository.ShortcutRepository -> Prop :=
| populated_empty now :
    populated {| linktable := []; sqlite_sequence := 0;
                 current_timestamp := now |}
| populated_tick r now :
    populated r ->
    populated {| linktable := linktable r;
                 sqlite_sequence := sqlite_sequence r;
                 current_timestamp := now |}
| populated_update r req userID now r' :
    populated r ->
    UpdateLink r req userID now = (r', None) ->
    populated r'.

Module more_examples.

Definition cycle_table :=
  examples.table [examples.row 1 "a" "b"; examples.row 2 "b" "a"].

Definition empty_database (r : repository.ShortcutRepository) : Database :=
  {| shortcuts := r; queries_table := []; queries_sequence := 0 |}.

Definition config : Config := {| BaseURL := str "http://localhost:8080" |}.

Definition docs_request : LinkRequest :=
  {| Request_Word := str "docs"; Request_Link := str "https://docs.example.com" |}.

(** The keyword [" docs"], with a space in front. *)
Definition padded_request : LinkRequest :=
  {| Request_Word := str " docs"; Request_Link := str "https://docs.example.com" |}.

End more_examples.

(* ================================================================== *)
(** * Facts about the string functions *)

Section StringFacts.

Lemma eqb_eq (a b : gostring) : eqb a b = true <-> a = b.
Proof.
  revert b; induction a as [|x a IH]; intros [|y b]; simpl; try easy.
  rewrite andb_true_iff, N.eqb_eq, IH. split.
  - intros [-> ->]; reflexivity.
  - intros E; injection E; auto.
Qed.

Lemma eqb_refl (a : gostring) : eqb a a = true.
Proof. apply eqb_eq; reflexivity. Qed.

Lemma eqb_neq (a b : gostring) : eqb a b = false <-> a <> b.
Proof.
  destruct (eqb a b) eqn:E.
  - apply eqb_eq in E. split; [discriminate | contradiction].
  - split; [|reflexivity]. intros _ Hab. apply eqb_eq in Hab. congruence.
Qed.

Lemma fields_from_nil (cur : gostring) : fields_from cur [] = emit (rev cur).
Proof.
  destruct cur as [|c cur]; [reflexivity|]. simpl.
  destruct (rev cur ++ [c]) eqn:E; [|reflexivity].
  destruct (rev cur); discriminate.
Qed.

Lemma fields_from_space (cur : gostring) sp s :
  IsSpace sp = true ->
  fields_from cur (sp :: s) = emit (rev cur) ++ fields_from [] s.
Proof.
  intros Hsp. simpl. rewrite Hsp.
  destruct cur as [|c cur]; [reflexivity|]. simpl.
  destruct (rev cur ++ [c]) eqn:E; [|reflexivity].
  destruct (rev cur); discriminate.
Qed.

Lemma fields_from_nospace (w : gostring) :
  nospace w -> forall cur, fields_from cur w = emit (rev cur ++ w).
Proof.
  induction 1 as [|r w Hr Hw IH]; intros cur.
  - rewrite fields_from_nil, app_nil_r; reflexivity.
  - simpl fields_from. rewrite Hr, IH. simpl. now rewrite <- app_assoc.
Qed.

Lemma fields_from_app_space (s1 : gostring) sp s2 :
  IsSpace sp = true ->
  forall cur,
    fields_from cur (s1 ++ sp :: s2) = fields_from cur s1 ++ fields_from [] s2.
Proof.
  intros Hsp. induction s1 as [|r s1 IH]; intros cur.
  - rewrite fields_from_nil. change ([] ++ sp :: s2) with (sp :: s2).
    now rewrite fields_from_space.
  - destruct (IsSpace r) eqn:Hr.
    + change ((r :: s1) ++ sp :: s2) with (r :: (s1 ++ sp :: s2)).
      rewrite !fields_from_space, IH by assumption. now rewrite app_assoc.
    + simpl. rewrite Hr. apply IH.
Qed.

Lemma fields_from_words (s : gostring) :
  forall cur, nospace cur -> Forall is_word (fields_from cur s).
Proof.
  assert (Hemit : forall cur, nospace cur -> Forall is_word (emit (rev cur))).
  { intros cur Hc. destruct (rev cur) eqn:E; simpl; constructor; [|constructor].
    split; [discriminate|]. rewrite <- E. apply Forall_rev. exact Hc. }
  induction s as [|r s IH]; intros cur Hc.
  - rewrite fields_from_nil. now apply Hemit.
  - destruct (IsSpace r) eqn:Hr.
    + rewrite fields_from_space by assumption. apply Forall_app. split.
      * now apply Hemit.
      * apply IH. constructor.
    + simpl. rewrite Hr. apply IH. now constructor.
Qed.

Lemma Fields_words (s : gostring) : Forall is_word (Fields s).
Proof. apply fields_from_words. constructor. Qed.

Lemma fields_from_nonempty (s : gostring) :
  forall cur, cur <> [] \/ Exists (fun r => IsSpace r = false) s ->
              fields_from cur s <> [].
Proof.
  induction s as [|r s IH]; intros cur Hc.
  - destruct Hc as [Hc|Hc]; [|inversion Hc].
    destruct cur; [contradiction|]. simpl.
    destruct (rev cur ++ [r]); discriminate.
  - simpl. destruct (IsSpace r) eqn:Hr.
    + destruct cur.
      * apply IH. destruct Hc as [Hc|Hc]; [contradiction|].
        inversion Hc; subst; [congruence|]. now right.
      * discriminate.
    + apply IH. left; discriminate.
Qed.

Lemma Join_cons2 (w w' : gostring) ws sep :
  Join (w :: w' :: ws) sep = w ++ sep ++ Join (w' :: ws) sep.
Proof. reflexivity. Qed.

(** [Fields] undoes [Join] with a space on a list of words. *)
Lemma Fields_Join (ws : list gostring) :
  Forall is_word ws -> Fields (Join ws (str " ")) = ws.
Proof.
  unfold Fields. induction 1 as [|w ws [Hne Hw] Hws IH]; [reflexivity|].
  destruct ws as [|w' ws].
  - simpl. rewrite fields_from_nospace by assumption. simpl.
    destruct w; [contradiction|reflexivity].
  - rewrite Join_cons2. change (str " ") with [32%N].
    change (w ++ [32%N] ++ Join (w' :: ws) [32%N])
      with (w ++ 32%N :: Join (w' :: ws) [32%N]).
    rewrite fields_from_app_space by reflexivity.
    rewrite fields_from_nospace by assumption.
    change [32%N] with (str " "). rewrite IH. simpl.
    destruct w; [contradiction|reflexivity].
Qed.

Lemma Contains_space_In (s : gostring) :
  Contains s (str " ") = true <-> In 32%N s.
Proof.
  change (str " ") with [32%N].
  induction s as [|c s IH]; simpl; [easy|].
  rewrite orb_true_iff, IH, andb_true_r, N.eqb_eq. now intuition.
Qed.

Lemma word_no_space (w : gostring) : nospace w -> ~ In 32%N w.
Proof.
  intros Hw Hin. unfold nospace in Hw. rewrite Forall_forall in Hw.
  specialize (Hw _ Hin). discriminate.
Qed.

Lemma Contains_space_Join (ws : list gostring) :
  Forall is_word ws ->
  Contains (Join ws (str " ")) (str " ") = (2 <=? List.length ws)%nat.
Proof.
  intros Hws. destruct ws as [|w [|w' ws]].
  - reflexivity.
  - simpl. destruct (Contains w (str " ")) eqn:E; [|reflexivity].
    apply Contains_space_In in E. inversion Hws as [|? ? [_ Hw] _]; subst.
    now apply word_no_space in E.
  - change (2 <=? _)%nat with true. apply Contains_space_In.
    rewrite Join_cons2. apply in_or_app. right. now left.
Qed.

Lemma TrimLeftSpace_head (s : gostring) :
  match TrimLeftSpace s with [] => True | r :: _ => IsSpace r = false end.
Proof.
  induction s as [|r s IH]; simpl; [exact I|].
  destruct (IsSpace r) eqn:Hr; [exact IH | exact Hr].
Qed.

Lemma TrimLeftSpace_id (r : rune) s :
  IsSpace r = false -> TrimLeftSpace (r :: s) = r :: s.
Proof. intros Hr; simpl; now rewrite Hr. Qed.

Lemma TrimLeftSpace_snoc (s : gostring) r :
  IsSpace r = false ->
  exists s', TrimLeftSpace (s ++ [r]) = s' ++ [r].
Proof.
  intros Hr. induction s as [|c s IH]; simpl.
  - rewrite Hr. now exists [].
  - destruct (IsSpace c); [exact IH|]. now exists (c :: s).
Qed.

Lemma last_snoc (s : gostring) r d : last (s ++ [r]) d = r.
Proof. apply last_last. Qed.

Lemma trimmed_snoc (r : rune) s c :
  IsSpace r = false -> IsSpace c = false -> trimmed (r :: s ++ [c]).
Proof.
  intros Hr Hc. unfold trimmed. split; [exact Hr|].
  change (r :: s ++ [c]) with ((r :: s) ++ [c]). now rewrite last_last.
Qed.

Lemma TrimSpace_trimmed (s : gostring) : trimmed (TrimSpace s).
Proof.
  unfold TrimSpace, TrimRightSpace.
  pose proof (TrimLeftSpace_head s) as Hh.
  destruct (TrimLeftSpace s) as [|r t]; [exact I|].
  simpl rev.
  destruct (TrimLeftSpace_snoc (rev t) r Hh) as [u Hu]. rewrite Hu.
  rewrite rev_app_distr. simpl.
  pose proof (TrimLeftSpace_head (rev t ++ [r])) as Hl. rewrite Hu in Hl.
  destruct u as [|x u]; simpl.
  - auto.
  - simpl in Hl. now apply trimmed_snoc.
Qed.

Lemma trimmed_TrimSpace (s : gostring) : trimmed s -> TrimSpace s = s.
Proof.
  unfold TrimSpace, TrimRightSpace. destruct s as [|r s]; [reflexivity|].
  intros [Hr Hl]. rewrite TrimLeftSpace_id by assumption.
  destruct (rev (r :: s)) as [|c t] eqn:E.
  - apply (f_equal (@rev _)) in E. rewrite rev_involutive in E. discriminate.
  - assert (Es : r :: s = rev t ++ [c]).
    { rewrite <- (rev_involutive (r :: s)), E. reflexivity. }
    rewrite Es, last_last in Hl. rewrite TrimLeftSpace_id by assumption.
    simpl. now rewrite Es.
Qed.

Lemma TrimSpace_idem (s : gostring) : TrimSpace (TrimSpace s) = TrimSpace s.
Proof. apply trimmed_TrimSpace, TrimSpace_trimmed. Qed.

Lemma Fields_TrimLeftSpace (s : gostring) : Fields (TrimLeftSpace s) = Fields s.
Proof.
  unfold Fields. induction s as [|r s IH]; [reflexivity|]. simpl.
  destruct (IsSpace r) eqn:Hr; [exact IH|]. simpl. now rewrite Hr.
Qed.

Lemma Fields_TrimRightSpace (s : gostring) : Fields (TrimRightSpace s) = Fields s.
Proof.
  unfold TrimRightSpace. rewrite <- (rev_involutive s) at 2.
  induction (rev s) as [|r t IH]; [reflexivity|]. simpl.
  destruct (IsSpace r) eqn:Hr; [|reflexivity].
  rewrite IH. unfold Fields.
  rewrite fields_from_app_space by assumption. simpl. now rewrite app_nil_r.
Qed.

Lemma Fields_TrimSpace (s : gostring) : Fields (TrimSpace s) = Fields s.
Proof.
  unfold TrimSpace. now rewrite Fields_TrimRightSpace, Fields_TrimLeftSpace.
Qed.

Lemma Join_words_trimmed (ws : list gostring) :
  Forall is_word ws -> trimmed (Join ws (str " ")).
Proof.
  induction 1 as [|w ws [Hne Hw] Hws IH]; [exact I|].
  destruct ws as [|w' ws].
  - simpl. destruct w as [|r w]; [contradiction|].
    inversion Hw as [|? ? Hr Hw']; subst. split; [exact Hr|].
    destruct w as [|c w] using rev_ind; [exact Hr|].
    change (r :: w ++ [c]) with ((r :: w) ++ [c]). rewrite last_last.
    apply Forall_app in Hw'. destruct Hw' as [_ Hc]. now inversion Hc.
  - rewrite Join_cons2. destruct w as [|r w]; [contradiction|].
    inversion Hw as [|? ? Hr Hw']; subst.
    inversion Hws as [|? ? [Hne' _] _]; subst.
    remember (Join (w' :: ws) (str " ")) as j eqn:Ej.
    assert (Hj : j <> []).
    { subst j. destruct w'; [contradiction|]. destruct ws; discriminate. }
    destruct j as [|c j] using rev_ind; [contradiction|]. clear IHj.
    split; [exact Hr|].
    replace ((r :: w) ++ str " " ++ j ++ [c])
      with (((r :: w) ++ str " " ++ j) ++ [c])
      by (now rewrite <- !app_assoc).
    rewrite last_last.
    destruct (j ++ [c]) as [|x y] eqn:Ex; [destruct j; discriminate|].
    destruct IH as [_ IH]. rewrite <- Ex, last_last in IH. exact IH.
Qed.

Lemma TrimSpace_Join_words (ws : list gostring) :
  Forall is_word ws -> TrimSpace (Join ws (str " ")) = Join ws (str " ").
Proof. intros; now apply trimmed_TrimSpace, Join_words_trimmed. Qed.

(** A trimmed string with a space in it has two words at least. *)
Lemma trimmed_space_two_words (s : gostring) :
  trimmed s -> Contains s (str " ") = true -> 2 <= List.length (Fields s).
Proof.
  intros Ht Hc. apply Contains_space_In in Hc.
  apply in_split in Hc. destruct Hc as [s1 [s2 ->]].
  unfold Fields. rewrite fields_from_app_space by reflexivity.
  rewrite length_app.
  assert (H1 : fields_from [] s1 <> []).
  { apply fields_from_nonempty. right. destruct s1 as [|r s1].
    - simpl in Ht. destruct Ht as [Ht _]. discriminate.
    - destruct Ht as [Ht _]. now constructor. }
  assert (H2 : fields_from [] s2 <> []).
  { apply fields_from_nonempty. right.
    destruct s2 as [|c s2] using rev_ind.
    - destruct (s1 ++ [32%N]) eqn:E; [destruct s1; discriminate|].
      destruct Ht as [_ Ht]. rewrite <- E, last_last in Ht. discriminate.
    - clear IHs2. apply Exists_app. right. constructor.
      destruct (s1 ++ 32%N :: s2 ++ [c]) eqn:E; [destruct s1; discriminate|].
      destruct Ht as [_ Ht]. rewrite <- E in Ht.
      replace (s1 ++ 32%N :: s2 ++ [c]) with ((s1 ++ 32%N :: s2) ++ [c]) in Ht
        by (now rewrite <- app_assoc).
      now rewrite last_last in Ht. }
  destruct (fields_from [] s1); [contradiction|].
  destruct (fields_from [] s2); [contradiction|]. simpl. lia.
Qed.

Lemma TrimLeftSpace_app (s t : gostring) :
  TrimLeftSpace (s ++ t)
  = match TrimLeftSpace s with
    | [] => TrimLeftSpace t
    | _ :: _ => TrimLeftSpace s ++ t
    end.
Proof.
  induction s as [|r s IH]; simpl.
  - now destruct (TrimLeftSpace t).
  - destruct (IsSpace r); [exact IH | reflexivity].
Qed.

(** A space added at the end is trimmed away. *)
Lemma TrimSpace_trailing_space (s : gostring) :
  TrimSpace (s ++ str " ") = TrimSpace s.
Proof.
  unfold TrimSpace, TrimRightSpace. rewrite TrimLeftSpace_app.
  destruct (TrimLeftSpace s) as [|r t]; [reflexivity|].
  change (str " ") with [32%N]. now rewrite rev_app_distr.
Qed.

End StringFacts.

(* ================================================================== *)
(** * Facts about the replacement of the token *)

Section ReplaceFacts.

Lemma replace_from_cons (c : rune) (s old new : gostring) :
  replace_from 0 (c :: s) old new
  = if HasPrefix (c :: s) old
    then new ++ replace_from (List.length old - 1) s old new
    else c :: replace_from 0 s old new.
Proof. reflexivity. Qed.

Lemma replace_from_absent (s old new : gostring) :
  Contains s old = false -> replace_from 0 s old new = s.
Proof.
  induction s as [|c s IH]; [reflexivity|]. simpl Contains.
  intros Hc. apply orb_false_iff in Hc. destruct Hc as [Hp Hc].
  rewrite replace_from_cons, Hp, IH by assumption. reflexivity.
Qed.

Lemma ReplaceAll_absent (s old new : gostring) :
  old <> [] -> Contains s old = false -> ReplaceAll s old new = s.
Proof.
  intros Hold Hc. destruct old; [contradiction|]. now apply replace_from_absent.
Qed.

Lemma Contains_cons_false (c : rune) (s sub : gostring) :
  Contains (c :: s) sub = false ->
  HasPrefix (c :: s) sub = false /\ Contains s sub = false.
Proof. simpl Contains. intros Hc. now apply orb_false_iff in Hc. Qed.

(** The token does not begin inside a token-free piece that a token
    follows: it has no proper prefix that is also a suffix. *)
Lemma HasPrefix_piece_token (c : rune) (p rest : gostring) :
  token_free (c :: p) -> HasPrefix ((c :: p) ++ token ++ rest) token = false.
Proof.
  unfold token_free. intros Hc. apply Contains_cons_false in Hc.
  destruct Hc as [Hp _]. revert Hp. change token with [123%N; 42%N; 125%N].
  destruct p as [|b [|d p]]; simpl.
  - intros _. now rewrite andb_false_r.
  - intros _. now rewrite !andb_false_r.
  - now intros ->.
Qed.

Lemma replace_from_piece (p rest new : gostring) :
  token_free p ->
  replace_from 0 (p ++ token ++ rest) token new
  = p ++ new ++ replace_from 0 rest token new.
Proof.
  induction p as [|c p IH]; intros Hp.
  - reflexivity.
  - pose proof (HasPrefix_piece_token c p rest Hp) as Hn.
    apply Contains_cons_false in Hp. destruct Hp as [_ Hp].
    change ((c :: p) ++ token ++ rest) with (c :: (p ++ token ++ rest)) in *.
    rewrite replace_from_cons, Hn, IH by exact Hp. reflexivity.
Qed.

(** Every token between token-free pieces is replaced, all by the same
    value. *)
Lemma ReplaceAll_Join (pieces : list gostring) (new : gostring) :
  Forall token_free pieces ->
  ReplaceAll (Join pieces token) token new = Join pieces new.
Proof.
  change (ReplaceAll (Join pieces token) token new)
    with (replace_from 0 (Join pieces token) token new).
  induction 1 as [|p ps Hp Hps IH]; [reflexivity|].
  destruct ps as [|p' ps].
  - simpl. now apply replace_from_absent.
  - rewrite !Join_cons2, replace_from_piece, IH by assumption. reflexivity.
Qed.

Lemma QueryEscape_nil : url.QueryEscape [] = [].
Proof. reflexivity. Qed.

End ReplaceFacts.

(* ================================================================== *)
(** * Facts about [GetLink] *)

Section GetLinkFacts.
Context {R Q : Type} {shortcutRepo : ShortcutRepository R}
        {queryRepo : QueryRepository Q}.

Lemma GetLink_hit_url fuel (sr : R) (q : Q) word searchTerm shortcut :
  shortcutRepo_GetByWord sr (TrimSpace word) = Ok (Some shortcut) ->
  isURL (Link shortcut) = true ->
  GetLink (S fuel) sr q word searchTerm
  = (fst (queryRepo_Create q (ID shortcut)),
     [CallGetByWord (TrimSpace word) (Ok (Some shortcut));
      CallQueryCreate (ID shortcut) (snd (queryRepo_Create q (ID shortcut)))],
     Some (Ok (processResultLink (Link shortcut) searchTerm))).
Proof.
  intros Hget Hurl. simpl. rewrite Hget.
  destruct (queryRepo_Create q (ID shortcut)) as [q' err].
  now rewrite Hurl.
Qed.

Lemma GetLink_hit_alias fuel (sr : R) (q : Q) word searchTerm shortcut :
  shortcutRepo_GetByWord sr (TrimSpace word) = Ok (Some shortcut) ->
  isURL (Link shortcut) = false ->
  GetLink (S fuel) sr q word searchTerm
  = after [CallGetByWord (TrimSpace word) (Ok (Some shortcut));
           CallQueryCreate (ID shortcut) (snd (queryRepo_Create q (ID shortcut)))]
          (GetLink fuel sr (fst (queryRepo_Create q (ID shortcut)))
                   (Link shortcut) searchTerm).
Proof.
  intros Hget Hurl. simpl. rewrite Hget.
  destruct (queryRepo_Create q (ID shortcut)) as [q' err].
  now rewrite Hurl.
Qed.

Lemma GetLink_miss_split fuel (sr : R) (q : Q) word searchTerm :
  shortcutRepo_GetByWord sr (TrimSpace word) = Ok None ->
  Contains (TrimSpace word) (str " ") = true ->
  GetLink (S fuel) sr q word searchTerm
  = after [CallGetByWord (TrimSpace word) (Ok None)]
          (GetLink fuel sr q (fst (moveLastWord (TrimSpace word) searchTerm))
                   (snd (moveLastWord (TrimSpace word) searchTerm))).
Proof.
  intros Hget Hc. simpl. rewrite Hget, Hc.
  now destruct (moveLastWord (TrimSpace word) searchTerm).
Qed.

Lemma GetLink_miss_stop fuel (sr : R) (q : Q) word searchTerm :
  shortcutRepo_GetByWord sr (TrimSpace word) = Ok None ->
  Contains (TrimSpace word) (str " ") = false ->
  GetLink (S fuel) sr q word searchTerm
  = (q, [CallGetByWord (TrimSpace word) (Ok None)],
     Some (Err (InvalidQueryError
                  (str "Unable to find link for query "
                   ++ Join [TrimSpace word; searchTerm] (str " "))))).
Proof. intros Hget Hc. simpl. now rewrite Hget, Hc. Qed.

Lemma GetLink_lookup_error fuel (sr : R) (q : Q) word searchTerm err :
  shortcutRepo_GetByWord sr (TrimSpace word) = Err err ->
  GetLink (S fuel) sr q word searchTerm
  = (q, [CallGetByWord (TrimSpace word) (Err err)],
     Some (Err (Errorf (str "failed to get shortcut") err))).
Proof. intros Hget. simpl. now rewrite Hget. Qed.

(** Only the trimmed head counts. *)
Lemma GetLink_trims fuel (sr : R) (q : Q) word searchTerm :
  GetLink fuel sr q word searchTerm = GetLink fuel sr q (TrimSpace word) searchTerm.
Proof.
  destruct fuel as [|fuel]; [reflexivity|]. simpl. now rewrite TrimSpace_idem.
Qed.

Lemma returned_after {A} evs (r : run (Q:=Q) A) :
  returned (after evs r) = returned r.
Proof. now destruct r as [[q tr] a]. Qed.

Lemma calls_after {A} evs (r : run (Q:=Q) A) :
  calls (after evs r) = evs ++ calls r.
Proof. now destruct r as [[q tr] a]. Qed.

(** A call that returned returns the same with a larger budget. *)
Lemma GetLink_fuel_mono fuel :
  forall (sr : R) (q : Q) word searchTerm r,
    returned (GetLink fuel sr q word searchTerm) = Some r ->
    forall extra,
      GetLink (fuel + extra) sr q word searchTerm
      = GetLink fuel sr q word searchTerm.
Proof.
  induction fuel as [|fuel IH]; intros sr q word searchTerm r Hr extra.
  - discriminate.
  - revert Hr. simpl.
    destruct (shortcutRepo_GetByWord sr (TrimSpace word)) as [[s|]|err];
      [| |reflexivity].
    + destruct (queryRepo_Create q (ID s)) as [q' e].
      destruct (negb (isURL (Link s))); [|reflexivity].
      rewrite returned_after. intros Hr. now rewrite (IH _ _ _ _ _ Hr).
    + destruct (Contains (TrimSpace word) (str " ")); [|reflexivity].
      destruct (moveLastWord (TrimSpace word) searchTerm) as [nw nt].
      rewrite returned_after. intros Hr. now rewrite (IH _ _ _ _ _ Hr).
Qed.

End GetLinkFacts.

(* ================================================================== *)
(** * The tables of [link_test.go], run on the embedding *)

Section UnitTests.

Example Test_isURL :
  map isURL [str "http://example.com"; str "https://example.com"; str "docs";
             []; str "ftp://example.com"]
  = [true; true; false; false; false].
Proof. reflexivity. Qed.

Example Test_processResultLink :
  processResultLink (str "https://example.com") (str "test")
  = str "https://example.com"
  /\ processResultLink (str "https://google.com/search?q={*}") (str "golang")
     = str "https://google.com/search?q=golang"
  /\ processResultLink (str "https://example.com/{*}/docs/{*}") (str "api")
     = str "https://example.com/api/docs/api"
  /\ processResultLink (str "https://google.com/search?q={*}") (str "hello world")
     = str "https://google.com/search?q=hello+world"
  /\ processResultLink (str "https://example.com/{*}") []
     = str "https://example.com/".
Proof. repeat split. Qed.

Example Test_moveLastWord :
  moveLastWord (str "search golang") [] = (str "search", str "golang")
  /\ moveLastWord (str "search golang") (str "tutorial")
     = (str "search", str "golang tutorial")
  /\ moveLastWord (str "golang") [] = ([], str "golang")
  /\ moveLastWord [] (str "test") = ([], str "test").
Proof. repeat split. Qed.

Example TestLinkService_GetLink :
  returned (GetLink 4 (examples.table [examples.row 1 "docs" "https://docs.example.com"])
                    (examples.usage_log None) (str "docs") [])
  = Some (Ok (str "https://docs.example.com"))
  /\ returned (GetLink 4 examples.search_table (examples.usage_log None)
                       (str "search") (str "golang"))
     = Some (Ok (str "https://google.com/search?q=golang"))
  /\ returned (GetLink 4 examples.chain_table (examples.usage_log None) (str "d") [])
     = Some (Ok (str "https://docs.example.com"))
  /\ returned (GetLink 4 (examples.table []) (examples.usage_log None)
                       (str "nonexistent") [])
     = Some (Err (InvalidQueryError
                    (str "Unable to find link for query nonexistent ")))
  /\ returned (GetLink 4 examples.search_table (examples.usage_log None)
                       (str "search golang") [])
     = Some (Ok (str "https://google.com/search?q=golang")).
Proof. repeat split. Qed.

End UnitTests.

(* ================================================================== *)
(** * Substitution of the tail into a URL target *)

Lemma processResultLink_encoded (link searchTerm : gostring) :
  processResultLink link searchTerm
  = TrimSpace (ReplaceAll link token (encoded_tail searchTerm)).
Proof. reflexivity. Qed.

Lemma encoded_tail_plain (searchTerm : gostring) :
  token_free searchTerm -> trimmed searchTerm ->
  encoded_tail searchTerm = url.QueryEscape searchTerm.
Proof.
  intros Hfree Htrim. unfold encoded_tail.
  rewrite ReplaceAll_absent by (exact Hfree || discriminate).
  now rewrite trimmed_TrimSpace.
Qed.

(** C1, as the code has it: when the head is found and its target is an
    absolute URL, [GetLink] returns the target, trimmed, with every [{*}]
    replaced by one and the same value.  That value is the URL-encoding of
    the tail after one pass that deletes the [{*}] tokens of the tail and a
    trim; it is empty for an empty tail, and it is the URL-encoded tail
    itself when the tail holds no token and no white space at its ends. *)
Theorem GetLink_substitutes_every_token
  {R Q : Type} {shortcutRepo : ShortcutRepository R}
  {queryRepo : QueryRepository Q}
  (sr : R) (q : Q) (fuel : nat) (word searchTerm : gostring)
  (shortcut : Shortcut) (pieces : list gostring) :
  shortcutRepo_GetByWord sr (TrimSpace word) = Ok (Some shortcut) ->
  isURL (Link shortcut) = true ->
  Link shortcut = Join pieces token ->
  Forall token_free pieces ->
  returned (GetLink (S fuel) sr q word searchTerm)
  = Some (Ok (TrimSpace (Join pieces (encoded_tail searchTerm))))
  /\ returned (GetLink (S fuel) sr q word searchTerm)
     = Some (Ok (TrimSpace (ReplaceAll (Link shortcut) token
                                       (encoded_tail searchTerm))))
  /\ encoded_tail [] = []
  /\ (token_free searchTerm -> trimmed searchTerm ->
      returned (GetLink (S fuel) sr q word searchTerm)
      = Some (Ok (destination_as_specified (Link shortcut) searchTerm))).
Proof.
  intros Hget Hurl Hpieces Hfree.
  rewrite (GetLink_hit_url fuel sr q word searchTerm shortcut Hget Hurl).
  unfold returned; simpl snd. rewrite processResultLink_encoded.
  repeat split.
  - now rewrite Hpieces, ReplaceAll_Join.
  - intros Ht Htr. unfold destination_as_specified.
    now rewrite encoded_tail_plain.
Qed.

Lemma GetLink_substitutes_every_token_witness :
  returned (GetLink 1 examples.api_table (examples.usage_log None)
                    (str "api") (str "hello world"))
  = Some (Ok (str "https://example.com/hello+world/docs/hello+world")).
Proof.
  refine (proj1 (GetLink_substitutes_every_token
                   examples.api_table (examples.usage_log None) 0
                   (str "api") (str "hello world")
                   (examples.row 1 "api" "https://example.com/{*}/docs/{*}")
                   [str "https://example.com/"; str "/docs/"; []]
                   _ _ _ _));
    [reflexivity | reflexivity | reflexivity | repeat constructor].
Defined.

(** C1 as worded fails when the tail holds a token: for [search ->
    https://google.com/search?q={*}] the query [search {*}] resolves to
    [https://google.com/search?q=], not to the target with the URL-encoded
    tail [%7B%2A%7D] in it. *)
Lemma destination_with_token_in_tail :
  shortcutRepo_GetByWord examples.search_table (str "search")
  = Ok (Some (examples.row 1 "search" "https://google.com/search?q={*}"))
  /\ isURL examples.search_link = true
  /\ moveLastWord (str "search {*}") [] = (str "search", str "{*}")
  /\ returned (Resolve 2 examples.search_table (examples.usage_log None)
                       (str "search {*}"))
     = Some (Ok (str "https://google.com/search?q="))
  /\ destination_as_specified examples.search_link (str "{*}")
     = str "https://google.com/search?q=%7B%2A%7D"
  /\ returned (GetLink 1 examples.search_table (examples.usage_log None)
                       (str "search") (str "{*}"))
     <> Some (Ok (destination_as_specified examples.search_link (str "{*}"))).
Proof.
  repeat split; try (vm_compute; reflexivity).
  vm_compute. discriminate.
Qed.

(* ================================================================== *)
(** * Aliases *)

(** C2, as the code has it: when the head is found and its target is not an
    absolute URL, [GetLink] logs the hit and calls itself with the target
    as the new head and the tail as it is, a pair and not one joined
    string; when the target is the keyword of a URL mapping, the result is
    that URL with the tail substituted, and so with [d -> docs] and
    [docs -> https://docs.example.com] the query [d] resolves to
    [https://docs.example.com].  With an empty tail the call is the same as
    [Resolve(target + " " + tail)]. *)
Theorem GetLink_follows_alias
  {R Q : Type} {shortcutRepo : ShortcutRepository R}
  {queryRepo : QueryRepository Q}
  (sr : R) (q : Q) (fuel : nat) (word searchTerm : gostring)
  (shortcut : Shortcut) :
  shortcutRepo_GetByWord sr (TrimSpace word) = Ok (Some shortcut) ->
  isURL (Link shortcut) = false ->
  GetLink (S fuel) sr q word searchTerm
  = after [CallGetByWord (TrimSpace word) (Ok (Some shortcut));
           CallQueryCreate (ID shortcut) (snd (queryRepo_Create q (ID shortcut)))]
          (GetLink fuel sr (fst (queryRepo_Create q (ID shortcut)))
                   (Link shortcut) searchTerm)
  /\ (forall target,
        shortcutRepo_GetByWord sr (TrimSpace (Link shortcut)) = Ok (Some target) ->
        isURL (Link target) = true ->
        returned (GetLink (S (S fuel)) sr q word searchTerm)
        = Some (Ok (processResultLink (Link target) searchTerm)))
  /\ (forall target,
        shortcutRepo_GetByWord sr (TrimSpace (Link shortcut)) = Ok (Some target) ->
        Link target = str "https://docs.example.com" ->
        returned (Resolve (S (S fuel)) sr q word)
        = Some (Ok (str "https://docs.example.com")))
  /\ returned (Resolve (S fuel) sr q word)
     = returned (Resolve fuel sr (fst (queryRepo_Create q (ID shortcut)))
                         (Link shortcut ++ str " " ++ [])).
Proof.
  intros Hget Halias.
  assert (Hstep := fun n => GetLink_hit_alias n sr q word searchTerm shortcut Hget Halias).
  split; [apply Hstep|]. split; [|split].
  - intros target Htarget Hurl. rewrite Hstep, returned_after.
    now rewrite (GetLink_hit_url fuel sr _ _ searchTerm target Htarget Hurl).
  - intros target Htarget Hlink. unfold Resolve.
    rewrite (GetLink_hit_alias (S fuel) sr q word [] shortcut Hget Halias).
    rewrite returned_after.
    rewrite (GetLink_hit_url fuel sr _ _ [] target Htarget)
      by (now rewrite Hlink).
    now rewrite Hlink.
  - unfold Resolve.
    rewrite (GetLink_hit_alias fuel sr q word [] shortcut Hget Halias).
    rewrite returned_after.
    rewrite app_nil_r.
    now rewrite (GetLink_trims fuel sr _ (Link shortcut ++ str " ")),
      TrimSpace_trailing_space, <- GetLink_trims.
Qed.

Lemma GetLink_follows_alias_witness :
  shortcutRepo_GetByWord examples.chain_table (TrimSpace (str "d"))
  = Ok (Some (examples.row 1 "d" "docs"))
  /\ isURL (str "docs") = false
  /\ returned (Resolve 2 examples.chain_table (examples.usage_log None) (str "d"))
     = Some (Ok (str "https://docs.example.com")).
Proof.
  split; [reflexivity|]. split; [reflexivity|].
  exact (proj1 (proj2 (proj2 (GetLink_follows_alias
                                examples.chain_table (examples.usage_log None) 0
                                (str "d") [] (examples.row 1 "d" "docs")
                                eq_refl eq_refl)))
               (examples.row 2 "docs" "https://docs.example.com")
               eq_refl eq_refl).
Defined.

(** C2 as worded fails: with [d -> docs], [docs ->
    https://docs.example.com/{*}] and a keyword [docs api] of its own, the
    head [d] with tail [api] resolves through [docs] to
    [https://docs.example.com/api], while [Resolve("docs" + " " + "api")]
    finds the keyword [docs api] first. *)
Lemma alias_target_is_not_joined_with_tail :
  shortcutRepo_GetByWord examples.shadow_table (str "d")
  = Ok (Some (examples.row 1 "d" "docs"))
  /\ isURL (str "docs") = false
  /\ returned (GetLink 2 examples.shadow_table (examples.usage_log None)
                       (str "d") (str "api"))
     = Some (Ok (str "https://docs.example.com/api"))
  /\ returned (Resolve 3 examples.shadow_table (examples.usage_log None)
                       (str "d api"))
     = Some (Ok (str "https://docs.example.com/api"))
  /\ returned (Resolve 1 examples.shadow_table (examples.usage_log None)
                       (str "docs" ++ str " " ++ str "api"))
     = Some (Ok (str "https://other.example.com"))
  /\ returned (GetLink 2 examples.shadow_table (examples.usage_log None)
                       (str "d") (str "api"))
     <> returned (Resolve 2 examples.shadow_table (examples.usage_log None)
                          (str "docs" ++ str " " ++ str "api")).
Proof.
  repeat split; try (vm_compute; reflexivity).
  vm_compute. discriminate.
Qed.

(* ================================================================== *)
(** * The word-splitting retry loop *)

Section RetryLoop.
Context {R Q : Type} {shortcutRepo : ShortcutRepository R}
        {queryRepo : QueryRepository Q}.

Lemma removelast_words (ws : list gostring) :
  Forall is_word ws -> Forall is_word (removelast ws).
Proof.
  induction 1 as [|w ws Hw Hws IH]; [constructor|].
  simpl. destruct ws; [constructor|]. constructor; assumption.
Qed.

Lemma length_removelast_words (ws : list gostring) :
  List.length (removelast ws) = List.length ws - 1.
Proof.
  rewrite removelast_firstn_len, length_firstn. lia.
Qed.

Lemma leading_misses_miss (w : gostring) (tr : list event) :
  leading_misses ([CallGetByWord w (Ok None)] ++ tr) = w :: leading_misses tr.
Proof. reflexivity. Qed.

Lemma moveLastWord_split (word searchTerm : gostring) :
  trimmed word -> Contains word (str " ") = true ->
  moveLastWord word searchTerm
  = (Join (removelast (Fields word)) (str " "),
     Join (last (Fields word) [] :: Fields searchTerm) (str " ")).
Proof.
  intros Ht Hc. pose proof (trimmed_space_two_words word Ht Hc) as Hn.
  unfold moveLastWord. destruct (Fields word); [simpl in Hn; lia|reflexivity].
Qed.

Lemma Fields_shrunk (h : gostring) :
  Fields (Join (removelast (Fields h)) (str " ")) = removelast (Fields h).
Proof. apply Fields_Join, removelast_words, Fields_words. Qed.

Lemma TrimSpace_shrunk (h : gostring) :
  TrimSpace (Join (removelast (Fields h)) (str " "))
  = Join (removelast (Fields h)) (str " ").
Proof. apply TrimSpace_Join_words, removelast_words, Fields_words. Qed.

(** The failed lookups a call starts with are of the trimmed head and
    then of ever shorter heads. *)
Lemma leading_misses_shrinking fuel :
  forall (sr : R) (q : Q) word searchTerm,
    let tried := leading_misses (calls (GetLink fuel sr q word searchTerm)) in
    shrinking tried /\ (forall h l, tried = h :: l -> h = TrimSpace word).
Proof.
  induction fuel as [|fuel IH]; intros sr q word searchTerm.
  - split; [constructor | discriminate].
  - destruct (shortcutRepo_GetByWord sr (TrimSpace word)) as [[s|]|err] eqn:Hget.
    + destruct (isURL (Link s)) eqn:Hurl.
      * rewrite (GetLink_hit_url _ _ _ _ _ _ Hget Hurl).
        split; [constructor | discriminate].
      * rewrite (GetLink_hit_alias _ _ _ _ _ _ Hget Hurl), calls_after.
        split; [constructor | discriminate].
    + destruct (Contains (TrimSpace word) (str " ")) eqn:Hc.
      * rewrite (GetLink_miss_split _ _ _ _ _ Hget Hc), calls_after.
        rewrite (moveLastWord_split _ searchTerm (TrimSpace_trimmed word) Hc).
        simpl fst; simpl snd. rewrite leading_misses_miss.
        match goal with
        | |- context [GetLink fuel sr q ?w ?t] =>
            destruct (IH sr q w t) as [Hs Hh];
            destruct (leading_misses (calls (GetLink fuel sr q w t)))
              as [|h' rest]
        end.
        { split; [constructor | intros h l E; now injection E]. }
        rewrite TrimSpace_shrunk in Hh.
        split; [|intros h l E; now injection E].
        specialize (Hh h' rest eq_refl). subst h'.
        constructor; auto using TrimSpace_trimmed.
      * rewrite (GetLink_miss_stop _ _ _ _ _ Hget Hc).
        split; [constructor | intros h l E; now injection E].
    + rewrite (GetLink_lookup_error _ _ _ _ _ _ Hget).
      split; [constructor | discriminate].
Qed.

Lemma shrinking_word_count (l : list gostring) :
  shrinking l ->
  forall h l', l = h :: l' ->
    Forall (fun x => List.length (Fields x) < List.length (Fields h)) l'
    /\ List.length l <= Nat.max 1 (List.length (Fields h)).
Proof.
  induction 1 as [|h0|h0 h1 l0 Ht Hc Eh Hs IH]; intros h l' E.
  - discriminate.
  - injection E as -> <-. split; [constructor | cbn [List.length]; lia].
  - injection E as -> <-.
    pose proof (trimmed_space_two_words h Ht Hc) as Hn.
    destruct (IH h1 l0 eq_refl) as [Hlt Hlen].
    assert (Hf : List.length (Fields h1) = List.length (Fields h) - 1).
    { subst h1. now rewrite Fields_shrunk, length_removelast_words. }
    split.
    + constructor; [lia|].
      eapply Forall_impl; [|exact Hlt]. cbn beta. intros; lia.
    + cbn [List.length] in *. lia.
Qed.

Lemma shrinking_NoDup (l : list gostring) : shrinking l -> NoDup l.
Proof.
  induction 1 as [|h0|h0 h1 l0 Ht Hc Eh Hs IH].
  - constructor.
  - constructor; [easy | constructor].
  - constructor; [|exact IH].
    destruct (shrinking_word_count (h0 :: h1 :: l0)
                (shrinking_cons h0 h1 l0 Ht Hc Eh Hs) h0 (h1 :: l0) eq_refl)
      as [Hlt _].
    intros Hin. rewrite Forall_forall in Hlt. specialize (Hlt _ Hin). lia.
Qed.

Lemma shrinking_step (l : list gostring) :
  shrinking l ->
  forall i h h',
    nth_error l i = Some h -> nth_error l (S i) = Some h' ->
    h' = Join (removelast (Fields h)) (str " ")
    /\ Fields h' = removelast (Fields h)
    /\ List.length (Fields h') + 1 = List.length (Fields h).
Proof.
  induction 1 as [|h0|h0 h1 l0 Ht Hc Eh Hs IH]; intros i h h' Hi Hi'.
  - destruct i; discriminate.
  - destruct i as [|[|i]]; discriminate.
  - destruct i as [|i].
    + simpl in Hi, Hi'. injection Hi as <-. injection Hi' as <-.
      pose proof (trimmed_space_two_words h0 Ht Hc) as Hn.
      subst h1. rewrite Fields_shrunk, length_removelast_words.
      repeat split; lia.
    + apply (IH i); assumption.
Qed.

(** With a budget of as many calls as the head has words, and of one at
    least, a call has returned or has got past its failed lookups. *)
Lemma retry_loop_ends fuel :
  forall (sr : R) (q : Q) word searchTerm,
    Nat.max 1 (List.length (Fields word)) <= fuel ->
    returned (GetLink fuel sr q word searchTerm) <> None
    \/ left_retry_loop (calls (GetLink fuel sr q word searchTerm)).
Proof.
  induction fuel as [|fuel IH]; intros sr q word searchTerm Hfuel; [lia|].
  destruct (shortcutRepo_GetByWord sr (TrimSpace word)) as [[s|]|err] eqn:Hget.
  - right. destruct (isURL (Link s)) eqn:Hurl.
    + rewrite (GetLink_hit_url _ _ _ _ _ _ Hget Hurl).
      unfold left_retry_loop; simpl; lia.
    + rewrite (GetLink_hit_alias _ _ _ _ _ _ Hget Hurl), calls_after.
      unfold left_retry_loop; simpl; lia.
  - destruct (Contains (TrimSpace word) (str " ")) eqn:Hc.
    + rewrite (GetLink_miss_split _ _ _ _ _ Hget Hc), calls_after, returned_after.
      rewrite (moveLastWord_split _ searchTerm (TrimSpace_trimmed word) Hc).
      simpl fst; simpl snd.
      pose proof (trimmed_space_two_words _ (TrimSpace_trimmed word) Hc) as Hn.
      rewrite Fields_TrimSpace in *.
      match goal with
      | |- context [GetLink fuel sr q ?w ?t] =>
          destruct (IH sr q w t) as [Hr|Hl]
      end.
      * rewrite Fields_Join by apply removelast_words, Fields_words.
        rewrite length_removelast_words. lia.
      * now left.
      * right. unfold left_retry_loop in *. simpl. lia.
    + left. now rewrite (GetLink_miss_stop _ _ _ _ _ Hget Hc).
  - left. now rewrite (GetLink_lookup_error _ _ _ _ _ _ Hget).
Qed.

End RetryLoop.

(** C5, as the code has it: the heads a call looks up in vain, one after
    the other, start with the trimmed query; each next head is the one
    before without its last word; no head is tried twice; there are at most
    as many of them as the query has words, and one when it has none; and
    with that many calls the loop has ended: the call has returned or a
    lookup has answered. *)
Theorem retry_loop_shrinks_and_ends
  {R Q : Type} {shortcutRepo : ShortcutRepository R}
  {queryRepo : QueryRepository Q}
  (sr : R) (q : Q) (fuel : nat) (word searchTerm : gostring) :
  (forall i h h',
      nth_error (leading_misses (calls (GetLink fuel sr q word searchTerm))) i = Some h ->
      nth_error (leading_misses (calls (GetLink fuel sr q word searchTerm))) (S i) = Some h' ->
      h' = Join (removelast (Fields h)) (str " ")
      /\ Fields h' = removelast (Fields h)
      /\ List.length (Fields h') + 1 = List.length (Fields h))
  /\ NoDup (leading_misses (calls (GetLink fuel sr q word searchTerm)))
  /\ List.length (leading_misses (calls (GetLink fuel sr q word searchTerm)))
     <= Nat.max 1 (List.length (Fields word))
  /\ (Nat.max 1 (List.length (Fields word)) <= fuel ->
      returned (GetLink fuel sr q word searchTerm) <> None
      \/ left_retry_loop (calls (GetLink fuel sr q word searchTerm))).
Proof.
  destruct (leading_misses_shrinking fuel sr q word searchTerm) as [Hs Hh].
  repeat split.
  - apply (shrinking_step _ Hs i h h'); assumption.
  - apply (shrinking_step _ Hs i h h'); assumption.
  - apply (shrinking_step _ Hs i h h'); assumption.
  - now apply shrinking_NoDup.
  - destruct (leading_misses (calls (GetLink fuel sr q word searchTerm)))
      as [|h l] eqn:E; [cbn [List.length]; lia|].
    destruct (shrinking_word_count _ Hs h l eq_refl) as [_ Hlen].
    rewrite (Hh h l eq_refl), Fields_TrimSpace in Hlen. exact Hlen.
  - apply retry_loop_ends.
Qed.

Lemma retry_loop_shrinks_and_ends_witness :
  leading_misses (calls (Resolve 3 (examples.table []) (examples.usage_log None)
                                 (str "a  b c")))
  = [str "a  b c"; str "a b"; str "a"]
  /\ (returned (Resolve 3 (examples.table []) (examples.usage_log None)
                        (str "a  b c")) <> None
      \/ left_retry_loop (calls (Resolve 3 (examples.table [])
                                         (examples.usage_log None) (str "a  b c")))).
Proof.
  split; [reflexivity|].
  refine (proj2 (proj2 (proj2 (retry_loop_shrinks_and_ends
                                 (examples.table []) (examples.usage_log None) 3
                                 (str "a  b c") []))) _).
  vm_compute. lia.
Defined.

(** C5 as worded fails for the empty query: it has no word, and one lookup
    (of the empty head) is made. *)
Lemma empty_query_is_looked_up_once :
  List.length (Fields []) = 0
  /\ leading_misses (calls (Resolve 1 (examples.table []) (examples.usage_log None)
                                    []))
     = [[]]
  /\ ~ (List.length
          (leading_misses (calls (Resolve 1 (examples.table [])
                                          (examples.usage_log None) [])))
        <= List.length (Fields [])).
Proof.
  repeat split. vm_compute. lia.
Qed.

(* ================================================================== *)
(** * The not-found failure *)

Section NotFound.
Context {R Q : Type} {shortcutRepo : ShortcutRepository R}
        {queryRepo : QueryRepository Q}.

Lemma Join_pair (a b sep : gostring) : Join [a; b] sep = a ++ sep ++ b.
Proof. reflexivity. Qed.

Lemma not_found_reached fuel :
  forall (sr : R) (q : Q) word searchTerm Message,
    returned (GetLink fuel sr q word searchTerm)
    = Some (Err (InvalidQueryError Message)) ->
    exists head tail,
      reaches sr (word, searchTerm) (head, tail)
      /\ shortcutRepo_GetByWord sr (TrimSpace head) = Ok None
      /\ Contains (TrimSpace head) (str " ") = false
      /\ Message = not_found_prefix ++ TrimSpace head ++ str " " ++ tail.
Proof.
  induction fuel as [|fuel IH]; intros sr q word searchTerm Message; [discriminate|].
  destruct (shortcutRepo_GetByWord sr (TrimSpace word)) as [[s|]|err] eqn:Hget.
  - destruct (isURL (Link s)) eqn:Hurl.
    + rewrite (GetLink_hit_url _ _ _ _ _ _ Hget Hurl). discriminate.
    + rewrite (GetLink_hit_alias _ _ _ _ _ _ Hget Hurl), returned_after.
      intros Hr. destruct (IH _ _ _ _ _ Hr) as (head & tail & Hreach & Hrest).
      exists head, tail. split; [|exact Hrest].
      eapply Relation_Operators.rt1n_trans; [|exact Hreach]. now apply recurses_alias.
  - destruct (Contains (TrimSpace word) (str " ")) eqn:Hc.
    + rewrite (GetLink_miss_split _ _ _ _ _ Hget Hc), returned_after.
      intros Hr. destruct (IH _ _ _ _ _ Hr) as (head & tail & Hreach & Hrest).
      exists head, tail. split; [|exact Hrest].
      eapply Relation_Operators.rt1n_trans; [|exact Hreach].
      rewrite <- surjective_pairing. now apply recurses_split.
    + rewrite (GetLink_miss_stop _ _ _ _ _ Hget Hc). intros Hr.
      injection Hr as <-. exists word, searchTerm.
      repeat split; try assumption. apply Relation_Operators.rt1n_refl.
  - rewrite (GetLink_lookup_error _ _ _ _ _ _ Hget). discriminate.
Qed.

Lemma reached_not_found (sr : R) (x z : gostring * gostring) :
  clos_refl_trans_1n _ (recurses sr) x z ->
  shortcutRepo_GetByWord sr (TrimSpace (fst z)) = Ok None ->
  Contains (TrimSpace (fst z)) (str " ") = false ->
  forall q : Q, exists fuel,
    returned (GetLink fuel sr q (fst x) (snd x))
    = Some (Err (InvalidQueryError
                   (not_found_prefix ++ TrimSpace (fst z) ++ str " " ++ snd z))).
Proof.
  induction 1 as [[word searchTerm]|x y z Hstep Hreach IH]; intros Hget Hc q.
  - exists 1. simpl fst in *; simpl snd in *.
    now rewrite (GetLink_miss_stop _ _ _ _ _ Hget Hc).
  - destruct Hstep as [word searchTerm Hmiss Hsp|word searchTerm s Hhit Halias];
      simpl fst in *; simpl snd in *.
    + destruct (IH Hget Hc q) as [fuel Hfuel]. exists (S fuel).
      now rewrite (GetLink_miss_split _ _ _ _ _ Hmiss Hsp), returned_after.
    + destruct (IH Hget Hc (fst (queryRepo_Create q (ID s)))) as [fuel Hfuel].
      exists (S fuel).
      now rewrite (GetLink_hit_alias _ _ _ _ _ _ Hhit Halias), returned_after.
Qed.

End NotFound.

(** C3, as the code has it: [GetLink] fails with [InvalidQueryError]
    exactly when its recursion (retries after failed lookups, steps from an
    alias to its target) comes to a head that has no mapping and holds no
    space character; the message is "Unable to find link for query "
    followed by that head, a space and the tail of that moment.  In
    particular a query without a space and without a mapping, such as the
    empty one or [nonexistent], fails so at the first lookup. *)
Theorem GetLink_not_found_iff
  {R Q : Type} {shortcutRepo : ShortcutRepository R}
  {queryRepo : QueryRepository Q}
  (sr : R) (q : Q) (word searchTerm : gostring) :
  (forall Message,
      (exists fuel, returned (GetLink fuel sr q word searchTerm)
                    = Some (Err (InvalidQueryError Message)))
      <->
      (exists head tail,
          reaches sr (word, searchTerm) (head, tail)
          /\ shortcutRepo_GetByWord sr (TrimSpace head) = Ok None
          /\ Contains (TrimSpace head) (str " ") = false
          /\ Message = not_found_prefix ++ TrimSpace head ++ str " " ++ tail))
  /\ (shortcutRepo_GetByWord sr (TrimSpace word) = Ok None ->
      Contains (TrimSpace word) (str " ") = false ->
      forall fuel,
        returned (Resolve (S fuel) sr q word)
        = Some (Err (InvalidQueryError
                       (not_found_prefix ++ TrimSpace word ++ str " "))))
  /\ Contains (TrimSpace []) (str " ") = false
  /\ Contains (TrimSpace (str "nonexistent")) (str " ") = false.
Proof.
  split; [|split; [|split; reflexivity]].
  - intros Message. split.
    + intros [fuel Hfuel]. exact (not_found_reached fuel sr q _ _ _ Hfuel).
    + intros (head & tail & Hreach & Hget & Hc & ->).
      exact (reached_not_found sr (word, searchTerm) (head, tail) Hreach Hget Hc q).
  - intros Hget Hc fuel. unfold Resolve.
    rewrite (GetLink_miss_stop _ _ _ _ _ Hget Hc), Join_pair.
    reflexivity.
Qed.

Lemma GetLink_not_found_iff_witness :
  returned (Resolve 1 examples.a_table (examples.usage_log None) (str "nonexistent"))
  = Some (Err (InvalidQueryError (str "Unable to find link for query nonexistent ")))
  /\ returned (Resolve 1 examples.a_table (examples.usage_log None) [])
     = Some (Err (InvalidQueryError (str "Unable to find link for query  "))).
Proof.
  split.
  - exact (proj1 (proj2 (GetLink_not_found_iff
                           examples.a_table (examples.usage_log None)
                           (str "nonexistent") []))
                 eq_refl eq_refl 0).
  - exact (proj1 (proj2 (GetLink_not_found_iff
                           examples.a_table (examples.usage_log None)
                           [] []))
                 eq_refl eq_refl 0).
Defined.

(** C3 as worded fails for a head of several words that holds no space
    character: with [a] mapped, the query [a<TAB>b] is looked up once, as a
    whole, and fails with [InvalidQueryError], although it has two words
    and the first of them has a mapping. *)
Lemma not_found_with_two_words :
  Fields examples.a_tab_b = [str "a"; str "b"]
  /\ shortcutRepo_GetByWord examples.a_table (str "a")
     = Ok (Some (examples.row 1 "a" "https://a.example.com"))
  /\ GetLink 5 examples.a_table (examples.usage_log None) examples.a_tab_b []
     = (examples.usage_log None,
        [CallGetByWord examples.a_tab_b (Ok None)],
        Some (Err (InvalidQueryError
                     (not_found_prefix ++ examples.a_tab_b ++ str " "))))
  /\ ~ List.length (Fields examples.a_tab_b) <= 1.
Proof.
  repeat split. vm_compute. lia.
Qed.

(* ================================================================== *)
(** * The usage log *)

Section UsageLog.
Context {R : Type} {shortcutRepo : ShortcutRepository R}.

Lemma well_logged_hit word (s : Shortcut) err (tr : list event) :
  well_logged ([CallGetByWord word (Ok (Some s)); CallQueryCreate (ID s) err] ++ tr)
  = well_logged tr.
Proof. simpl. now rewrite Z.eqb_refl. Qed.

(** The calls of a run are well logged, and the log is asked for the
    identifiers of the mappings found, in their order. *)
Lemma GetLink_well_logged {Q : Type} {queryRepo : QueryRepository Q} fuel :
  forall (sr : R) (q : Q) word searchTerm,
    well_logged (calls (GetLink fuel sr q word searchTerm)) = true
    /\ attempts (calls (GetLink fuel sr q word searchTerm))
       = map ID (hits (calls (GetLink fuel sr q word searchTerm))).
Proof.
  induction fuel as [|fuel IH]; intros sr q word searchTerm.
  - split; reflexivity.
  - destruct (shortcutRepo_GetByWord sr (TrimSpace word)) as [[s|]|err] eqn:Hget.
    + destruct (isURL (Link s)) eqn:Hurl.
      * rewrite (GetLink_hit_url _ _ _ _ _ _ Hget Hurl). unfold calls. simpl.
        now rewrite Z.eqb_refl.
      * rewrite (GetLink_hit_alias _ _ _ _ _ _ Hget Hurl), calls_after.
        rewrite well_logged_hit.
        destruct (IH sr (fst (queryRepo_Create q (ID s))) (Link s) searchTerm)
          as [Hw Ha].
        split; [exact Hw|]. simpl. now rewrite Ha.
    + destruct (Contains (TrimSpace word) (str " ")) eqn:Hc.
      * rewrite (GetLink_miss_split _ _ _ _ _ Hget Hc), calls_after.
        match goal with
        | |- context [GetLink fuel sr q ?w ?t] => destruct (IH sr q w t) as [Hw Ha]
        end.
        split; [exact Hw | exact Ha].
      * rewrite (GetLink_miss_stop _ _ _ _ _ Hget Hc). split; reflexivity.
    + rewrite (GetLink_lookup_error _ _ _ _ _ _ Hget). split; reflexivity.
Qed.

Lemma query_log_after {Q : Type} {queryRepo : QueryRepository Q} {A}
      (evs : list event) (r : run (Q:=Q) A) :
  query_log (after evs r) = query_log r.
Proof. now destruct r as [[q tr] a]. Qed.

(** The usage log a call leaves behind is the one it was given after one
    [Create] per mapping found, in the order found, and the answers in the
    run are the answers of these calls. *)
Lemma GetLink_records {Q : Type} {queryRepo : QueryRepository Q} fuel :
  forall (sr : R) (q : Q) word searchTerm,
    query_log (GetLink fuel sr q word searchTerm)
    = replay q (map ID (hits (calls (GetLink fuel sr q word searchTerm))))
    /\ answered q (calls (GetLink fuel sr q word searchTerm)).
Proof.
  induction fuel as [|fuel IH]; intros sr q word searchTerm.
  - split; [reflexivity | exact I].
  - destruct (shortcutRepo_GetByWord sr (TrimSpace word)) as [[s|]|err] eqn:Hget.
    + destruct (isURL (Link s)) eqn:Hurl.
      * rewrite (GetLink_hit_url _ _ _ _ _ _ Hget Hurl).
        split; [reflexivity|]. cbn. auto.
      * rewrite (GetLink_hit_alias _ _ _ _ _ _ Hget Hurl).
        rewrite query_log_after, calls_after.
        destruct (IH sr (fst (queryRepo_Create q (ID s))) (Link s) searchTerm)
          as [Hq Ha].
        split; [rewrite Hq; reflexivity|]. cbn. auto.
    + destruct (Contains (TrimSpace word) (str " ")) eqn:Hc.
      * rewrite (GetLink_miss_split _ _ _ _ _ Hget Hc).
        rewrite query_log_after, calls_after.
        match goal with
        | |- context [GetLink fuel sr q ?w ?t] => destruct (IH sr q w t) as [Hq Ha]
        end.
        split; [exact Hq | exact Ha].
      * rewrite (GetLink_miss_stop _ _ _ _ _ Hget Hc).
        split; [reflexivity | exact I].
    + rewrite (GetLink_lookup_error _ _ _ _ _ _ Hget).
      split; [reflexivity | exact I].
Qed.

(** What a call returns and what it looks up do not depend on the query
    repository, neither on its state nor on whether its [Create] fails. *)
Lemma GetLink_ignores_log {Q1 Q2 : Type}
      (log1 : QueryRepository Q1) (log2 : QueryRepository Q2) fuel :
  forall (sr : R) (q1 : Q1) (q2 : Q2) word searchTerm,
    returned (GetLink (queryRepo:=log1) fuel sr q1 word searchTerm)
    = returned (GetLink (queryRepo:=log2) fuel sr q2 word searchTerm)
    /\ lookups (calls (GetLink (queryRepo:=log1) fuel sr q1 word searchTerm))
       = lookups (calls (GetLink (queryRepo:=log2) fuel sr q2 word searchTerm)).
Proof.
  induction fuel as [|fuel IH]; intros sr q1 q2 word searchTerm.
  - split; reflexivity.
  - destruct (shortcutRepo_GetByWord sr (TrimSpace word)) as [[s|]|err] eqn:Hget.
    + destruct (isURL (Link s)) eqn:Hurl.
      * rewrite !(GetLink_hit_url _ _ _ _ _ _ Hget Hurl). split; reflexivity.
      * rewrite !(GetLink_hit_alias _ _ _ _ _ _ Hget Hurl).
        rewrite !returned_after, !calls_after.
        destruct (IH sr (fst (queryRepo_Create (QueryRepository:=log1) q1 (ID s)))
                     (fst (queryRepo_Create (QueryRepository:=log2) q2 (ID s)))
                     (Link s) searchTerm) as [Hr Hl].
        split; [exact Hr|]. simpl. now rewrite Hl.
    + destruct (Contains (TrimSpace word) (str " ")) eqn:Hc.
      * rewrite !(GetLink_miss_split _ _ _ _ _ Hget Hc).
        rewrite !returned_after, !calls_after.
        match goal with
        | |- context [GetLink fuel sr q1 ?w ?t] =>
            destruct (IH sr q1 q2 w t) as [Hr Hl]
        end.
        split; [exact Hr|]. simpl. now rewrite Hl.
      * rewrite !(GetLink_miss_stop _ _ _ _ _ Hget Hc). split; reflexivity.
    + rewrite !(GetLink_lookup_error _ _ _ _ _ _ Hget). split; reflexivity.
Qed.

End UsageLog.



(* ================================================================== *)
(** * Validation of a new mapping *)

Section Validation.
Context {R : Type} {shortcutRepo : ShortcutRepository R}.

Lemma eqb_nil (w : gostring) : eqb w [] = true <-> w = [].
Proof. apply eqb_eq. Qed.

Lemma validateLinkRequest_cases (req : LinkRequest) :
  let word := TrimSpace (Request_Word req) in
  let link := TrimSpace (Request_Link req) in
  validateLinkRequest req =
    if eqb word [] then Some (InvalidQueryError reason_empty_word)
    else if HasSuffix word (str "/") then Some (InvalidQueryError reason_trailing_slash)
    else if eqb link [] then Some (InvalidQueryError reason_empty_link)
    else if eqb link word then Some (InvalidQueryError reason_self_reference)
    else None.
Proof. reflexivity. Qed.

Lemma UpdateLink_valid (sr : R) req userID now :
  validateLinkRequest req = None ->
  isURL (Request_Link req) = true ->
  UpdateLink sr req userID now
  = (fst (shortcutRepo_Create sr (new_shortcut req userID now)),
     match snd (shortcutRepo_Create sr (new_shortcut req userID now)) with
     | Err err => Some (Errorf (str "failed to create shortcut") err)
     | Ok _ => None
     end).
Proof.
  intros Hv Hurl. unfold UpdateLink. rewrite Hv, Hurl. simpl negb. cbv iota.
  fold (new_shortcut req userID now).
  now destruct (shortcutRepo_Create sr (new_shortcut req userID now)) as [sr' [s|e]].
Qed.

Lemma reasons_distinct :
  NoDup [reason_empty_word; reason_trailing_slash; reason_empty_link;
         reason_self_reference; reason_not_url].
Proof.
  repeat constructor; simpl; intros Hin;
    repeat (destruct Hin as [Hin|Hin]; [vm_compute in Hin; discriminate|]);
    exact Hin.
Qed.

End Validation.

(** C4: [UpdateLink] makes five checks in a fixed order, the first one that
    fails decides, each has a message of its own: the word is empty after
    the trim; the trimmed word ends in [/]; the link is empty after the
    trim; the trimmed link is the trimmed word; the link does not begin
    with [http://] or [https://].  A request that fails one of them is
    refused with [InvalidQueryError] and the keyword store is left alone; a
    request that passes all five goes to [Create] of the keyword store and
    the outcome is no [InvalidQueryError].  So a link that is not a URL is
    never stored. *)
Theorem UpdateLink_checks_in_order
  {R : Type} {shortcutRepo : ShortcutRepository R}
  (sr : R) (req : LinkRequest) (userID : gostring) (now : Time) :
  (TrimSpace (Request_Word req) = [] ->
   rejects sr req userID now reason_empty_word)
  /\ (TrimSpace (Request_Word req) <> [] ->
      HasSuffix (TrimSpace (Request_Word req)) (str "/") = true ->
      rejects sr req userID now reason_trailing_slash)
  /\ (TrimSpace (Request_Word req) <> [] ->
      HasSuffix (TrimSpace (Request_Word req)) (str "/") = false ->
      TrimSpace (Request_Link req) = [] ->
      rejects sr req userID now reason_empty_link)
  /\ (TrimSpace (Request_Word req) <> [] ->
      HasSuffix (TrimSpace (Request_Word req)) (str "/") = false ->
      TrimSpace (Request_Link req) <> [] ->
      TrimSpace (Request_Link req) = TrimSpace (Request_Word req) ->
      rejects sr req userID now reason_self_reference)
  /\ (TrimSpace (Request_Word req) <> [] ->
      HasSuffix (TrimSpace (Request_Word req)) (str "/") = false ->
      TrimSpace (Request_Link req) <> [] ->
      TrimSpace (Request_Link req) <> TrimSpace (Request_Word req) ->
      isURL (Request_Link req) = false ->
      rejects sr req userID now reason_not_url)
  /\ (TrimSpace (Request_Word req) <> [] ->
      HasSuffix (TrimSpace (Request_Word req)) (str "/") = false ->
      TrimSpace (Request_Link req) <> [] ->
      TrimSpace (Request_Link req) <> TrimSpace (Request_Word req) ->
      isURL (Request_Link req) = true ->
      UpdateLink sr req userID now
      = (fst (shortcutRepo_Create sr (new_shortcut req userID now)),
         match snd (shortcutRepo_Create sr (new_shortcut req userID now)) with
         | Err err => Some (Errorf (str "failed to create shortcut") err)
         | Ok _ => None
         end)
      /\ forall reason,
          snd (UpdateLink sr req userID now) <> Some (InvalidQueryError reason))
  /\ NoDup [reason_empty_word; reason_trailing_slash; reason_empty_link;
            reason_self_reference; reason_not_url]
  /\ (isURL (Request_Link req) = false ->
      exists reason, rejects sr req userID now reason).
Proof.
  pose proof (validateLinkRequest_cases req) as Hv. cbv zeta in Hv.
  unfold rejects, UpdateLink.
  destruct (eqb (TrimSpace (Request_Word req)) []) eqn:Ew.
  { apply eqb_eq in Ew. rewrite Hv.
    repeat split; try (intros; congruence); try apply reasons_distinct.
    intros _. eexists; reflexivity. }
  apply eqb_neq in Ew.
  destruct (HasSuffix (TrimSpace (Request_Word req)) (str "/")) eqn:Es.
  { rewrite Hv.
    repeat split; try (intros; congruence); try apply reasons_distinct.
    intros _. eexists; reflexivity. }
  destruct (eqb (TrimSpace (Request_Link req)) []) eqn:El.
  { apply eqb_eq in El. rewrite Hv.
    repeat split; try (intros; congruence); try apply reasons_distinct.
    intros _. eexists; reflexivity. }
  apply eqb_neq in El.
  destruct (eqb (TrimSpace (Request_Link req)) (TrimSpace (Request_Word req))) eqn:Eq.
  { apply eqb_eq in Eq. rewrite Hv.
    repeat split; try (intros; congruence); try apply reasons_distinct.
    intros _. eexists; reflexivity. }
  apply eqb_neq in Eq.
  destruct (isURL (Request_Link req)) eqn:Eu.
  - pose proof (UpdateLink_valid sr req userID now Hv Eu) as Hok.
    unfold UpdateLink in Hok. rewrite Hv, Eu in Hok. simpl negb in Hok. cbv iota in Hok.
    rewrite Hv. simpl negb. cbv iota.
    repeat split; try (intros; congruence); try apply reasons_distinct;
      try exact Hok.
    intros reason. rewrite Hok. simpl snd.
    destruct (snd (shortcutRepo_Create sr (new_shortcut req userID now))); discriminate.
  - rewrite Hv. simpl negb. cbv iota.
    repeat split; try (intros; congruence); try apply reasons_distinct.
    intros _. eexists; reflexivity.
Qed.

Lemma UpdateLink_checks_in_order_witness :
  rejects (examples.table []) {| Request_Word := []; Request_Link := [] |}
          (str "testuser") 0%Z reason_empty_word
  /\ rejects (examples.table [])
             {| Request_Word := str "docs/"; Request_Link := [] |}
             (str "testuser") 0%Z reason_trailing_slash
  /\ rejects (examples.table [])
             {| Request_Word := str "docs"; Request_Link := str "  " |}
             (str "testuser") 0%Z reason_empty_link
  /\ rejects (examples.table [])
             {| Request_Word := str "test"; Request_Link := str "test" |}
             (str "testuser") 0%Z reason_self_reference
  /\ rejects (examples.table [])
             {| Request_Word := str "docs"; Request_Link := str "example.com" |}
             (str "testuser") 0%Z reason_not_url
  /\ snd (UpdateLink (examples.table [])
                     {| Request_Word := str "docs";
                        Request_Link := str "https://docs.example.com" |}
                     (str "testuser") 0%Z) = None.
Proof.
  split; [|split; [|split; [|split; [|split]]]].
  - apply (UpdateLink_checks_in_order (examples.table [])
             {| Request_Word := []; Request_Link := [] |}).
    reflexivity.
  - apply (UpdateLink_checks_in_order (examples.table [])
             {| Request_Word := str "docs/"; Request_Link := [] |});
      [discriminate | reflexivity].
  - apply (UpdateLink_checks_in_order (examples.table [])
             {| Request_Word := str "docs"; Request_Link := str "  " |});
      [discriminate | reflexivity | reflexivity].
  - apply (UpdateLink_checks_in_order (examples.table [])
             {| Request_Word := str "test"; Request_Link := str "test" |});
      [discriminate | reflexivity | discriminate | reflexivity].
  - apply (UpdateLink_checks_in_order (examples.table [])
             {| Request_Word := str "docs"; Request_Link := str "example.com" |});
      [discriminate | reflexivity | discriminate | vm_compute; discriminate
      | reflexivity].
  - reflexivity.
Defined.

(* ================================================================== *)
(** * The keyword store: [linktable] *)

Section Linktable.
Local Open Scope Z_scope.

Lemma max_id_row_In (rows : list Shortcut) (m : Shortcut) :
  max_id_row rows = Some m -> In m rows.
Proof.
  revert m. induction rows as [|s rows IH]; intros m; [discriminate|].
  simpl. destruct (max_id_row rows) as [m'|].
  - destruct (ID s <? ID m'); intros E; injection E as <-; auto.
  - intros E; injection E as <-; auto.
Qed.

Lemma max_id_row_ge (rows : list Shortcut) (m : Shortcut) :
  max_id_row rows = Some m -> forall s, In s rows -> ID s <= ID m.
Proof.
  revert m. induction rows as [|s rows IH]; intros m; [discriminate|].
  simpl. destruct (max_id_row rows) as [m'|] eqn:E.
  - destruct (ID s <? ID m') eqn:Hlt; intros Em; injection Em as <-;
      intros x [<-|Hx]; try lia; specialize (IH m' eq_refl x Hx); lia.
  - intros Em; injection Em as <-. intros x [<-|Hx]; [lia|].
    destruct rows as [|y rows]; [contradiction|]. simpl in E.
    destruct (max_id_row rows) as [z|]; [destruct (ID y <? ID z)|]; discriminate.
Qed.

Lemma max_id_row_None (rows : list Shortcut) :
  max_id_row rows = None -> rows = [].
Proof.
  destruct rows as [|s rows]; [reflexivity|]. simpl.
  destruct (max_id_row rows) as [m|]; [destruct (ID s <? ID m)|]; discriminate.
Qed.

Lemma max_id_row_last (rows : list Shortcut) (x : Shortcut) :
  (forall s, In s rows -> ID s < ID x) -> max_id_row (rows ++ [x]) = Some x.
Proof.
  induction rows as [|s rows IH]; intros Hlt; [reflexivity|].
  simpl. rewrite IH by (intros; apply Hlt; now right).
  assert (ID s < ID x) as Hs by (apply Hlt; now left).
  apply Z.ltb_lt in Hs. now rewrite Hs.
Qed.

Lemma max_rowid_ge (rows : list Shortcut) (s : Shortcut) :
  In s rows -> ID s <= max_rowid rows.
Proof.
  induction rows as [|x rows IH]; [contradiction|].
  simpl. intros [<-|Hs]; [lia|]. specialize (IH Hs). lia.
Qed.

Lemma where_word_In (word : gostring) (rows : list Shortcut) (s : Shortcut) :
  In s (where_word word rows) <-> In s rows /\ Word s = word.
Proof. unfold where_word. now rewrite filter_In, eqb_eq. Qed.

Lemma where_word_app (word : gostring) (l1 l2 : list Shortcut) :
  where_word word (l1 ++ l2) = where_word word l1 ++ where_word word l2.
Proof. apply filter_app. Qed.

Lemma where_word_other (word : gostring) (rows extra : list Shortcut) :
  Forall (fun s => Word s <> word) extra ->
  where_word word (rows ++ extra) = where_word word rows.
Proof.
  intros Hx. rewrite where_word_app.
  replace (where_word word extra) with (@nil Shortcut); [apply app_nil_r|].
  induction Hx as [|s extra Hs Hx IH]; [reflexivity|]. simpl.
  apply eqb_neq in Hs. now rewrite Hs.
Qed.

(** What [GetByWord] returns is a row of the table, for the word asked,
    with the largest identifier among the rows for that word. *)
Lemma GetByWord_found (r : repository.ShortcutRepository) word (s : Shortcut) :
  ShortcutRepository_GetByWord r word = Ok (Some s) ->
  In s (linktable r) /\ Word s = word
  /\ forall s', In s' (linktable r) -> Word s' = word -> ID s' <= ID s.
Proof.
  unfold ShortcutRepository_GetByWord. intros E. injection E as E.
  pose proof (max_id_row_In _ _ E) as Hin. apply where_word_In in Hin.
  destruct Hin as [Hin Hw]. repeat split; try assumption.
  intros s' Hin' Hw'. apply (max_id_row_ge _ _ E). now apply where_word_In.
Qed.

(** The row [Create] appends, and its identifier. *)
Lemma Create_appends (r : repository.ShortcutRepository) (shortcut : Shortcut) :
  exists row,
    linktable (fst (ShortcutRepository_Create r shortcut)) = linktable r ++ [row]
    /\ Word row = Word shortcut /\ Link row = Link shortcut
    /\ User row = User shortcut
    /\ (forall s, In s (linktable r) -> ID s < ID row)
    /\ snd (ShortcutRepository_Create r shortcut)
       = Ok {| ID := ID row; Word := Word shortcut; Link := Link shortcut;
               User := User shortcut; CreatedAt := CreatedAt shortcut |}.
Proof.
  eexists. simpl. repeat split. simpl.
  intros s Hs. apply max_rowid_ge in Hs. lia.
Qed.

Lemma empty_well_formed (now : Time) :
  well_formed {| linktable := []; sqlite_sequence := 0; current_timestamp := now |}.
Proof. split; constructor. Qed.

Lemma Create_well_formed (r : repository.ShortcutRepository) (shortcut : Shortcut) :
  well_formed r -> well_formed (fst (ShortcutRepository_Create r shortcut)).
Proof.
  intros [Hnd Hall]. unfold well_formed. simpl. split.
  - rewrite map_app. simpl. apply NoDup_app; [exact Hnd | repeat constructor; easy |].
    intros a Ha [<-|[]]. apply in_map_iff in Ha. destruct Ha as (s & Es & Hs).
    apply max_rowid_ge in Hs. lia.
  - apply Forall_app. split.
    + eapply Forall_impl; [|exact Hall]. cbn beta. intros s Hs. lia.
    + constructor; [|constructor]. simpl.
      rewrite Forall_forall in Hall.
      assert (0 <= max_rowid (linktable r)).
      { clear. induction (linktable r); simpl; lia. }
      lia.
Qed.

(** Every mapping a call of [GetLink] finds is an answer of the keyword
    store. *)
Lemma hits_are_answers {R Q : Type} {shortcutRepo : ShortcutRepository R}
      {queryRepo : QueryRepository Q} fuel :
  forall (sr : R) (q : Q) word searchTerm s,
    In s (hits (calls (GetLink fuel sr q word searchTerm))) ->
    exists w, shortcutRepo_GetByWord sr w = Ok (Some s).
Proof.
  induction fuel as [|fuel IH]; intros sr q word searchTerm s; [contradiction|].
  destruct (shortcutRepo_GetByWord sr (TrimSpace word)) as [[m|]|err] eqn:Hget.
  - destruct (isURL (Link m)) eqn:Hurl.
    + rewrite (GetLink_hit_url _ _ _ _ _ _ Hget Hurl). unfold calls. simpl.
      intros [<-|[]]. now exists (TrimSpace word).
    + rewrite (GetLink_hit_alias _ _ _ _ _ _ Hget Hurl), calls_after. simpl.
      intros [<-|Hin]; [now exists (TrimSpace word)|]. exact (IH _ _ _ _ _ Hin).
  - destruct (Contains (TrimSpace word) (str " ")) eqn:Hc.
    + rewrite (GetLink_miss_split _ _ _ _ _ Hget Hc), calls_after. simpl.
      intros Hin. exact (IH _ _ _ _ _ Hin).
    + rewrite (GetLink_miss_stop _ _ _ _ _ Hget Hc). contradiction.
  - rewrite (GetLink_lookup_error _ _ _ _ _ _ Hget). contradiction.
Qed.

End Linktable.

(** C6: after two mappings have been created one after the other for the
    same keyword, the table is the old table with the two rows appended (no
    row is deleted or changed), the lookup of the keyword returns the
    second row, no lookup returns the first row, the lookups of other
    keywords are as before, and every call of [GetLink] for the keyword
    finds the second row first and, when its target is a URL, returns that
    target with the tail substituted; the first row is among the mappings
    found by no call at all. *)
Theorem second_mapping_is_live
  (r : repository.ShortcutRepository) (first second : Shortcut) :
  Word first = Word second ->
  exists row1 row2,
    linktable (fst (ShortcutRepository_Create
                      (fst (ShortcutRepository_Create r first)) second))
    = linktable r ++ [row1; row2]
    /\ (Word row1, Link row1, User row1) = (Word first, Link first, User first)
    /\ (Word row2, Link row2, User row2) = (Word second, Link second, User second)
    /\ (ID row1 < ID row2)%Z
    /\ (forall s, In s (linktable r) -> (ID s < ID row1)%Z)
    /\ forall r2,
        r2 = fst (ShortcutRepository_Create
                    (fst (ShortcutRepository_Create r first)) second) ->
        ShortcutRepository_GetByWord r2 (Word second) = Ok (Some row2)
        /\ (forall word, ShortcutRepository_GetByWord r2 word <> Ok (Some row1))
        /\ (forall word, word <> Word second ->
                         ShortcutRepository_GetByWord r2 word
                         = ShortcutRepository_GetByWord r word)
        /\ (forall (Q : Type) (queryRepo : QueryRepository Q) (q : Q)
                   fuel query tail,
               ~ In row1 (hits (calls (GetLink fuel r2 q query tail))))
        /\ (forall (Q : Type) (queryRepo : QueryRepository Q) (q : Q)
                   fuel query tail,
               TrimSpace query = Word second ->
               (exists rest,
                   hits (calls (GetLink (S fuel) r2 q query tail)) = row2 :: rest)
               /\ (isURL (Link second) = true ->
                   returned (GetLink (S fuel) r2 q query tail)
                   = Some (Ok (processResultLink (Link second) tail)))).
Proof.
  intros Hword.
  destruct (Create_appends r first) as (row1 & Ht1 & Hw1 & Hl1 & Hu1 & Hid1 & _).
  destruct (Create_appends (fst (ShortcutRepository_Create r first)) second)
    as (row2 & Ht2 & Hw2 & Hl2 & Hu2 & Hid2 & _).
  rewrite Ht1 in Ht2, Hid2. rewrite <- app_assoc in Ht2. simpl app in Ht2.
  assert (Hlt : (ID row1 < ID row2)%Z).
  { apply Hid2, in_or_app. right. now left. }
  exists row1, row2.
  split; [exact Ht2|]. split; [congruence|]. split; [congruence|].
  split; [exact Hlt|]. split; [exact Hid1|].
  intros r2 ->.
  assert (Hget2 : ShortcutRepository_GetByWord
                    (fst (ShortcutRepository_Create
                            (fst (ShortcutRepository_Create r first)) second))
                    (Word second) = Ok (Some row2)).
  { unfold ShortcutRepository_GetByWord. rewrite Ht2. f_equal.
    replace (linktable r ++ [row1; row2]) with ((linktable r ++ [row1]) ++ [row2])
      by (now rewrite <- app_assoc).
    rewrite where_word_app. simpl where_word at 2.
    rewrite Hw2, eqb_refl. apply max_id_row_last.
    intros s Hs. apply where_word_In in Hs. destruct Hs as [Hs _]. now apply Hid2. }
  assert (Hnot1 : forall word,
             ShortcutRepository_GetByWord
               (fst (ShortcutRepository_Create
                       (fst (ShortcutRepository_Create r first)) second)) word
             <> Ok (Some row1)).
  { intros word Hget. apply GetByWord_found in Hget.
    destruct Hget as (_ & Hw & Hmax).
    specialize (Hmax row2). rewrite Ht2 in Hmax.
    assert (ID row2 <= ID row1)%Z; [|lia].
    apply Hmax; [apply in_or_app; right; right; now left | congruence]. }
  split; [exact Hget2|]. split; [exact Hnot1|]. split; [|split].
  - intros word Hne. unfold ShortcutRepository_GetByWord. rewrite Ht2.
    rewrite where_word_other; [reflexivity|].
    repeat constructor; congruence.
  - intros Q queryRepo q fuel query tail Hin.
    destruct (hits_are_answers fuel _ q query tail row1 Hin) as [w Hw].
    exact (Hnot1 w Hw).
  - intros Q queryRepo q fuel query tail Hq.
    assert (Hget : shortcutRepo_GetByWord
                     (fst (ShortcutRepository_Create
                             (fst (ShortcutRepository_Create r first)) second))
                     (TrimSpace query) = Ok (Some row2)).
    { rewrite Hq. exact Hget2. }
    split.
    + destruct (isURL (Link row2)) eqn:Hurl.
      * rewrite (GetLink_hit_url _ _ _ _ _ _ Hget Hurl). now exists [].
      * rewrite (GetLink_hit_alias _ _ _ _ _ _ Hget Hurl), calls_after.
        eexists. reflexivity.
    + intros Hurl. rewrite <- Hl2 in Hurl |- *.
      now rewrite (GetLink_hit_url _ _ _ _ _ _ Hget Hurl).
Qed.

Lemma second_mapping_is_live_witness :
  exists row1 row2,
    linktable (fst (ShortcutRepository_Create
                      (fst (ShortcutRepository_Create
                              examples.a_table
                              (examples.row 0 "docs" "https://old.example.com")))
                      (examples.row 0 "docs" "https://new.example.com")))
    = linktable examples.a_table ++ [row1; row2]
    /\ (ID row1 < ID row2)%Z.
Proof.
  destruct (second_mapping_is_live
              examples.a_table
              (examples.row 0 "docs" "https://old.example.com")
              (examples.row 0 "docs" "https://new.example.com") eq_refl)
    as (row1 & row2 & Ht & _ & _ & Hlt & _).
  exists row1, row2. split; [exact Ht | exact Hlt].
Defined.

(* ================================================================== *)
(** * The list of live mappings *)

Section LiveMappings.
Local Open Scope Z_scope.

Lemma distinct_In (ws : list gostring) (w : gostring) :
  In w (distinct ws) <-> In w ws.
Proof.
  induction ws as [|v ws IH]; [easy|]. simpl.
  rewrite filter_In, IH, negb_true_iff, eqb_neq.
  destruct (list_eq_dec N.eq_dec v w) as [->|Hne]; [tauto|].
  split; [tauto|]. intros [E|Hin]; [tauto|]. right. split; [exact Hin|congruence].
Qed.

Lemma distinct_NoDup (ws : list gostring) : NoDup (distinct ws).
Proof.
  induction ws as [|v ws IH]; [constructor|]. simpl. constructor.
  - rewrite filter_In, negb_true_iff, eqb_neq. tauto.
  - now apply NoDup_filter.
Qed.

Lemma insert_desc_Permutation (x : Shortcut) (l : list Shortcut) :
  Permutation (insert_desc x l) (x :: l).
Proof.
  induction l as [|y l IH]; [reflexivity|]. simpl.
  destruct (ID y <=? ID x); [reflexivity|].
  rewrite IH. apply perm_swap.
Qed.

Lemma order_by_id_desc_Permutation (l : list Shortcut) :
  Permutation (order_by_id_desc l) l.
Proof.
  induction l as [|x l IH]; [reflexivity|]. simpl.
  rewrite insert_desc_Permutation. now constructor.
Qed.

Lemma insert_desc_sorted (x : Shortcut) (l : list Shortcut) :
  StronglySorted id_desc l -> StronglySorted id_desc (insert_desc x l).
Proof.
  induction 1 as [|y l Hs IH Hy]; simpl.
  - repeat constructor.
  - destruct (ID y <=? ID x) eqn:E.
    + apply Z.leb_le in E. constructor; [now constructor|].
      constructor; [exact E|].
      eapply Forall_impl; [|exact Hy]. unfold id_desc. intros; lia.
    + apply Z.leb_gt in E. constructor; [exact IH|].
      apply (Permutation_Forall (Permutation_sym (insert_desc_Permutation x l))).
      constructor; [unfold id_desc; lia | exact Hy].
Qed.

Lemma order_by_id_desc_sorted (l : list Shortcut) :
  StronglySorted id_desc (order_by_id_desc l).
Proof.
  induction l as [|x l IH]; [constructor|]. now apply insert_desc_sorted.
Qed.

Lemma perm_In_iff {A} {l l' : list A} (x : A) :
  Permutation l l' -> (In x l <-> In x l').
Proof.
  intros Hp. split; apply Permutation_in; [exact Hp | now symmetry].
Qed.

(** Two rows of a table with a primary key that have the same identifier
  are one row. *)
Lemma same_id_same_row (rows : list Shortcut) :
  NoDup (map ID rows) ->
  forall a b : Shortcut, In a rows -> In b rows -> ID a = ID b -> a = b.
Proof.
  induction rows as [|s rows IH]; [contradiction|]. simpl. intros Hnd.
  inversion Hnd as [|? ? Hnot Hnd']; subst.
  intros a b [<-|Ha] [<-|Hb] E; auto.
  - exfalso. apply Hnot. rewrite E. now apply in_map.
  - exfalso. apply Hnot. rewrite <- E. now apply in_map.
Qed.

Lemma sorted_strictly (rows l : list Shortcut) :
  NoDup (map ID rows) -> incl l rows -> NoDup l ->
  StronglySorted id_desc l -> StronglySorted id_strictly_desc l.
Proof.
  intros Hrows Hincl Hnd Hs. induction Hs as [|a l Hs IH Ha]; [constructor|].
  inversion Hnd as [|? ? Hnot Hnd']; subst.
  constructor.
  - apply IH; [|exact Hnd']. intros x Hx. apply Hincl. now right.
  - rewrite Forall_forall in Ha |- *. intros b Hb.
    specialize (Ha b Hb). unfold id_desc, id_strictly_desc in *.
    assert (ID b <> ID a); [|lia].
    intros E. apply Hnot.
    rewrite <- (same_id_same_row rows Hrows b a); auto.
    + apply Hincl. now right.
    + apply Hincl. now left.
Qed.

Lemma filter_keeps_order (keep : Shortcut -> bool) (rows : list Shortcut) :
  StronglySorted id_strictly_desc rows ->
  StronglySorted id_strictly_desc (filter keep rows).
Proof.
  induction 1 as [|a l Hs IH Ha]; [constructor|]. simpl.
  destruct (keep a); [|exact IH]. constructor; [exact IH|].
  rewrite Forall_forall in Ha |- *. intros b Hb. apply filter_In in Hb.
  now apply Ha.
Qed.

Lemma filter_keeps_distinct_words (keep : Shortcut -> bool) (rows : list Shortcut) :
  NoDup (map Word rows) -> NoDup (map Word (filter keep rows)).
Proof.
  induction rows as [|a l IH]; [constructor|]. simpl. intros Hnd.
  inversion Hnd as [|? ? Hnot Hnd']; subst.
  destruct (keep a); [|now apply IH]. simpl. constructor; [|now apply IH].
  intros Hin. apply Hnot. apply in_map_iff in Hin.
  destruct Hin as (b & E & Hb). apply filter_In in Hb. rewrite <- E.
  now apply in_map.
Qed.

Lemma group_rows_In (rows : list Shortcut) (keys : list gostring) (s : Shortcut) :
  In s (group_rows rows keys)
  <-> In (Word s) keys /\ max_id_row (where_word (Word s) rows) = Some s.
Proof.
  unfold group_rows. rewrite in_flat_map. split.
  - intros (w & Hw & Hs).
    destruct (max_id_row (where_word w rows)) as [m|] eqn:E; [|contradiction].
    destruct Hs as [<-|[]].
    pose proof (max_id_row_In _ _ E) as Hin. apply where_word_In in Hin.
    destruct Hin as [_ <-]. now split.
  - intros [Hk E]. exists (Word s). split; [exact Hk|]. rewrite E. now left.
Qed.

Lemma group_rows_NoDup (rows : list Shortcut) (keys : list gostring) :
  NoDup keys -> NoDup (map Word (group_rows rows keys)).
Proof.
  induction 1 as [|k keys Hk Hnd IH]; [constructor|].
  change (group_rows rows (k :: keys))
    with (option_list (max_id_row (where_word k rows)) ++ group_rows rows keys).
  rewrite map_app.
  destruct (max_id_row (where_word k rows)) as [m|] eqn:E; [|exact IH].
  simpl. constructor; [|exact IH].
  pose proof (max_id_row_In _ _ E) as Hin. apply where_word_In in Hin.
  destruct Hin as [_ Hw]. rewrite Hw.
  intros Hin. apply in_map_iff in Hin. destruct Hin as (s & Es & Hs).
  apply group_rows_In in Hs. destruct Hs as [Hs _]. congruence.
Qed.

Lemma select_latest_In (rows : list Shortcut) (s : Shortcut) :
  In s (select_latest_per_word rows)
  <-> max_id_row (where_word (Word s) rows) = Some s.
Proof.
  unfold select_latest_per_word. fold (group_rows rows (distinct (map Word rows))).
  rewrite (perm_In_iff s (order_by_id_desc_Permutation _)), group_rows_In.
  split; [tauto|]. intros E. split; [|exact E].
  apply distinct_In, in_map. pose proof (max_id_row_In _ _ E) as Hin.
  now apply where_word_In in Hin.
Qed.

End LiveMappings.

(** C7: the list [GetAllKeywords] returns has at most one row per keyword;
    each row is the most recently created mapping of its keyword (what the
    lookup of the keyword returns); the rows are in descending order of the
    identifiers of these mappings; every target in it is an absolute URL,
    so a keyword whose most recent mapping has another target is not in the
    list; and every keyword whose most recent mapping has a URL target is
    in it.  The table is one the schema allows: its identifiers are pairwise
    different. *)
Theorem GetAllKeywords_lists_live_urls (r : repository.ShortcutRepository) :
  well_formed r ->
  exists live : list Shortcut,
    GetAllKeywords r = Ok (map scan_keyword live)
    /\ map Keyword_Word (map scan_keyword live) = map Word live
    /\ NoDup (map Word live)
    /\ Forall (fun s => ShortcutRepository_GetByWord r (Word s) = Ok (Some s)
                        /\ isURL (Link s) = true) live
    /\ StronglySorted id_strictly_desc live
    /\ (forall word s,
           ShortcutRepository_GetByWord r word = Ok (Some s) ->
           isURL (Link s) = false -> ~ In word (map Word live))
    /\ (forall word s,
           ShortcutRepository_GetByWord r word = Ok (Some s) ->
           isURL (Link s) = true -> In s live).
Proof.
  intros [Hids _].
  set (live := filter (fun s => isURL (Link s)) (select_latest_per_word (linktable r))).
  assert (Hlive : forall s, In s live <->
                            max_id_row (where_word (Word s) (linktable r)) = Some s
                            /\ isURL (Link s) = true).
  { intros s. unfold live. now rewrite filter_In, select_latest_In. }
  assert (Hwords : NoDup (map Word (select_latest_per_word (linktable r)))).
  { unfold select_latest_per_word.
    apply (Permutation_NoDup
             (Permutation_map Word
                (Permutation_sym (order_by_id_desc_Permutation _)))).
    apply group_rows_NoDup, distinct_NoDup. }
  exists live. split; [|split; [|split; [|split; [|split; [|split]]]]].
  - unfold GetAllKeywords. simpl. f_equal. unfold live.
    now rewrite filter_map_swap.
  - rewrite map_map. reflexivity.
  - unfold live. now apply filter_keeps_distinct_words.
  - apply Forall_forall. intros s Hs. apply Hlive in Hs. destruct Hs as [Hs Hu].
    split; [|exact Hu]. unfold ShortcutRepository_GetByWord. now rewrite Hs.
  - unfold live. apply filter_keeps_order.
    apply (sorted_strictly (linktable r)); [exact Hids | |
                                            now apply NoDup_map_inv in Hwords |
                                            apply order_by_id_desc_sorted].
    intros s Hs. apply select_latest_In, max_id_row_In, where_word_In in Hs.
    tauto.
  - intros word s Hget Halias Hin. apply in_map_iff in Hin.
    destruct Hin as (s' & Ew & Hs'). apply Hlive in Hs'. destruct Hs' as [Hs' Hu].
    unfold ShortcutRepository_GetByWord in Hget. rewrite Ew in Hs'. congruence.
  - intros word s Hget Hurl. apply Hlive. split; [|exact Hurl].
    pose proof (GetByWord_found r word s Hget) as (_ & Hw & _).
    unfold ShortcutRepository_GetByWord in Hget. rewrite Hw. congruence.
Qed.

Lemma GetAllKeywords_lists_live_urls_witness :
  GetAllKeywords examples.history_table
  = Ok (map scan_keyword [examples.row 4 "c" "http://c"; examples.row 3 "a" "http://a"])
  /\ exists live : list Shortcut,
      GetAllKeywords examples.history_table = Ok (map scan_keyword live)
      /\ NoDup (map Word live)
      /\ StronglySorted id_strictly_desc live.
Proof.
  split; [reflexivity|].
  assert (Hids : well_formed examples.history_table).
  { split; simpl.
    - repeat constructor; simpl; intuition discriminate.
    - repeat constructor; vm_compute; discriminate. }
  destruct (GetAllKeywords_lists_live_urls examples.history_table Hids)
    as (live & Hget & _ & Hnd & _ & Hs & _).
  exists live. auto.
Defined.

(* ================================================================== *)
(** * Further properties: the words of a query *)

Section QueryWords.
Context {R Q : Type} {shortcutRepo : ShortcutRepository R}
        {queryRepo : QueryRepository Q}.

Lemma words_firstn (k : nat) (ws : list gostring) :
  Forall is_word ws -> Forall is_word (firstn k ws).
Proof.
  intros Hws. revert k. induction Hws as [|w ws Hw Hws IH]; intros [|k];
    simpl; constructor; auto.
Qed.

Lemma words_skipn (k : nat) (ws : list gostring) :
  Forall is_word ws -> Forall is_word (skipn k ws).
Proof.
  intros Hws. revert k. induction Hws as [|w ws Hw Hws IH]; intros [|k];
    simpl; try constructor; auto.
Qed.

Lemma last_word (ws : list gostring) :
  Forall is_word ws -> ws <> [] -> is_word (last ws []).
Proof.
  induction 1 as [|w ws Hw Hws IH]; [contradiction|]. intros _.
  destruct ws as [|w' ws]; [exact Hw|]. apply IH. discriminate.
Qed.

(** The last of the first [k+1] words, put before the words after them,
    gives the words after the first [k]. *)
Lemma last_firstn_skipn (k : nat) (ws : list gostring) :
  k < List.length ws ->
  last (firstn (S k) ws) [] :: skipn (S k) ws = skipn k ws.
Proof.
  revert ws. induction k as [|k IH]; intros [|w ws] Hk; simpl in Hk; try lia.
  - destruct ws; reflexivity.
  - specialize (IH ws ltac:(lia)).
    change (skipn (S (S k)) (w :: ws)) with (skipn (S k) ws).
    change (skipn (S k) (w :: ws)) with (skipn k ws).
    rewrite <- IH. f_equal.
    change (firstn (S (S k)) (w :: ws)) with (w :: firstn (S k) ws).
    destruct ws as [|w' ws]; [simpl in Hk; lia|]. reflexivity.
Qed.

Lemma calls_after_hits {A} (evs : list event) (r : run (Q:=Q) A) :
  hits (calls (after evs r)) = hits evs ++ hits (calls r).
Proof.
  rewrite calls_after. induction evs as [|[w [[s|]|e]|id a] evs IH]; simpl;
    now rewrite ?IH.
Qed.

(** From a head of [j + d] words down to the head of its first [j] words:
    [d] failed lookups, each followed by a split, and the words taken off
    wait in the tail. *)
Lemma GetLink_descends (sr : R) (ws : list gostring) (j : nat) :
  Forall is_word ws -> 1 <= j ->
  (forall i, j < i < List.length ws ->
             shortcutRepo_GetByWord sr (Join (firstn i ws) (str " ")) = Ok None) ->
  forall d k h,
    k = j + d -> k <= List.length ws ->
    trimmed h -> Fields h = firstn k ws ->
    (0 < d -> Contains h (str " ") = true) ->
    (0 < d -> shortcutRepo_GetByWord sr h = Ok None) ->
    (k < List.length ws -> h = Join (firstn k ws) (str " ")) ->
    forall (q : Q) fuel,
      returned (GetLink (d + fuel) sr q h (Join (skipn k ws) (str " ")))
      = returned (GetLink fuel sr q
                          (match d with
                           | O => h
                           | S _ => Join (firstn j ws) (str " ")
                           end)
                          (Join (skipn j ws) (str " ")))
      /\ hits (calls (GetLink (d + fuel) sr q h (Join (skipn k ws) (str " "))))
         = hits (calls (GetLink fuel sr q
                                (match d with
                                 | O => h
                                 | S _ => Join (firstn j ws) (str " ")
                                 end)
                                (Join (skipn j ws) (str " ")))).
Proof.
  intros Hws Hj Hmid. induction d as [|d IH]; intros k h Hk Hlen Ht Hf Hc Hm Hh q fuel.
  - replace k with j by lia. split; reflexivity.
  - assert (Htrim : TrimSpace h = h) by now apply trimmed_TrimSpace.
    specialize (Hc ltac:(lia)). specialize (Hm ltac:(lia)).
    rewrite <- Htrim in Hm at 1. rewrite <- Htrim in Hc.
    change (S d + fuel) with (S (d + fuel)).
    rewrite (GetLink_miss_split _ _ _ _ _ Hm Hc), returned_after, calls_after_hits.
    rewrite Htrim in *.
    rewrite (moveLastWord_split h _ Ht Hc). cbn [fst snd].
    rewrite Hf. rewrite (Fields_Join (skipn k ws)) by now apply words_skipn.
    destruct k as [|k']; [lia|].
    rewrite removelast_firstn by lia. rewrite last_firstn_skipn by lia.
    assert (Hw' : Forall is_word (firstn k' ws)) by now apply words_firstn.
    destruct (IH k' (Join (firstn k' ws) (str " "))) with (q := q) (fuel := fuel)
      as [Hr Hh'];
      try lia; try reflexivity.
    + now apply Join_words_trimmed.
    + now apply Fields_Join.
    + intros Hd. rewrite Contains_space_Join by assumption.
      rewrite length_firstn. apply Nat.leb_le. lia.
    + intros Hd. apply Hmid. lia.
    + simpl hits. rewrite Hr, Hh'. destruct d; [|split; reflexivity].
      replace k' with j by lia. split; reflexivity.
Qed.

Lemma candidate_trimmed (query : gostring) (i : nat) : trimmed (candidate query i).
Proof.
  unfold candidate. destruct (Nat.eqb i (List.length (Fields query))).
  - apply TrimSpace_trimmed.
  - apply Join_words_trimmed, words_firstn, Fields_words.
Qed.

Lemma candidate_inner (query : gostring) (i : nat) :
  i < List.length (Fields query) ->
  candidate query i = Join (firstn i (Fields query)) (str " ").
Proof.
  intros Hi. unfold candidate.
  destruct (Nat.eqb_spec i (List.length (Fields query))); [lia|reflexivity].
Qed.

Lemma candidate_whole (query : gostring) :
  candidate query (List.length (Fields query)) = TrimSpace query.
Proof. unfold candidate. now rewrite Nat.eqb_refl. Qed.

(** The run of the retry loop of [Resolve], from the query down to its
    candidate of [j] words. *)
Lemma Resolve_descends (sr : R) (q : Q) (query : gostring) (j : nat) :
  1 <= j <= List.length (Fields query) ->
  (j < List.length (Fields query) ->
   Contains (TrimSpace query) (str " ") = true) ->
  (forall i, j < i <= List.length (Fields query) ->
             shortcutRepo_GetByWord sr (candidate query i) = Ok None) ->
  forall fuel,
    returned (Resolve (List.length (Fields query) - j + fuel) sr q query)
    = returned (GetLink fuel sr q (candidate query j)
                        (Join (skipn j (Fields query)) (str " ")))
    /\ hits (calls (Resolve (List.length (Fields query) - j + fuel) sr q query))
       = hits (calls (GetLink fuel sr q (candidate query j)
                              (Join (skipn j (Fields query)) (str " ")))).
Proof.
  intros Hj Hc Hmiss fuel. unfold Resolve.
  rewrite (GetLink_trims _ sr q query).
  pose proof (GetLink_descends sr (Fields query) j (Fields_words query)
                ltac:(lia)) as Hd.
  specialize (Hd ltac:(intros i Hi; rewrite <- candidate_inner by lia;
                       apply Hmiss; lia)).
  specialize (Hd (List.length (Fields query) - j) (List.length (Fields query))
                 (TrimSpace query) ltac:(lia) ltac:(lia)
                 (TrimSpace_trimmed query)).
  rewrite firstn_all, skipn_all in Hd.
  specialize (Hd (Fields_TrimSpace query) ltac:(intros; apply Hc; lia)).
  specialize (Hd ltac:(intros; rewrite <- candidate_whole; apply Hmiss; lia)
                 ltac:(intros; lia) q fuel).
  change (Join [] (str " ")) with (@nil rune) in Hd.
  destruct (List.length (Fields query) - j) as [|d] eqn:Ed.
  - assert (Ej : j = List.length (Fields query)) by lia.
    rewrite Ej in Hd |- *. rewrite candidate_whole. exact Hd.
  - rewrite candidate_inner by lia. exact Hd.
Qed.

End QueryWords.

(* ================================================================== *)
(** * URL targets without a token *)




(** X1: [Resolve] takes the longest run of leading words of the query that
    is a keyword, as long as the trimmed query holds a space character
    (U+0020) whenever a word has to be taken off: [GetLink] splits a head
    only when it holds one, so a query whose words are separated by other
    white space alone, a tab say, is not covered.  Under that condition,
    when the candidates of more than [j] words have no mapping and the
    candidate of [j] words has one with a URL target, the result is that
    target with the remaining words, joined by single spaces, substituted;
    that mapping is the only one found. *)
Theorem Resolve_longest_mapped_prefix
  {R Q : Type} {shortcutRepo : ShortcutRepository R}
  {queryRepo : QueryRepository Q}
  (sr : R) (q : Q) (query : gostring) (j : nat) (shortcut : Shortcut) :
  1 <= j <= List.length (Fields query) ->
  (j < List.length (Fields query) ->
   Contains (TrimSpace query) (str " ") = true) ->
  (forall i, j < i <= List.length (Fields query) ->
             shortcutRepo_GetByWord sr (candidate query i) = Ok None) ->
  shortcutRepo_GetByWord sr (candidate query j) = Ok (Some shortcut) ->
  isURL (Link shortcut) = true ->
  forall fuel,
    returned (Resolve (List.length (Fields query) - j + S fuel) sr q query)
    = Some (Ok (processResultLink (Link shortcut)
                                  (Join (skipn j (Fields query)) (str " "))))
    /\ hits (calls (Resolve (List.length (Fields query) - j + S fuel) sr q query))
       = [shortcut].
Proof.
  intros Hj Hc Hmiss Hhit Hurl fuel.
  destruct (Resolve_descends sr q query j Hj Hc Hmiss (S fuel)) as [Hr Hh].
  rewrite Hr, Hh.
  rewrite <- (trimmed_TrimSpace _ (candidate_trimmed query j)) in Hhit.
  rewrite (GetLink_hit_url _ _ _ _ _ _ Hhit Hurl). split; reflexivity.
Qed.

Lemma Resolve_longest_mapped_prefix_witness :
  returned (Resolve 3 examples.search_table (examples.usage_log None)
                    (str "search  golang   tour"))
  = Some (Ok (str "https://google.com/search?q=golang+tour")).
Proof.
  refine (proj1 (Resolve_longest_mapped_prefix
                   examples.search_table (examples.usage_log None)
                   (str "search  golang   tour") 1
                   (examples.row 1 "search" "https://google.com/search?q={*}")
                   _ _ _ _ _ 0)).
  - vm_compute. lia.
  - reflexivity.
  - intros i Hi. change (List.length (Fields (str "search  golang   tour"))) with 3 in Hi.
    assert (Ei : i = 2 \/ i = 3) by lia. destruct Ei as [-> | ->]; reflexivity.
  - reflexivity.
  - reflexivity.
Defined.

(** X2: for a query of two words or more whose trimmed form holds a space
    character (U+0020), so that [GetLink] splits it: when no run of leading
    words is a keyword, [Resolve] fails with [InvalidQueryError], without a
    mapping found, and the message is "Unable to find link for query "
    followed by the words of the query joined by single spaces.  A query
    whose words are separated by other white space alone is not covered:
    it is not split and its message holds the trimmed query as it is. *)
Theorem Resolve_not_found_message
  {R Q : Type} {shortcutRepo : ShortcutRepository R}
  {queryRepo : QueryRepository Q}
  (sr : R) (q : Q) (query : gostring) :
  2 <= List.length (Fields query) ->
  Contains (TrimSpace query) (str " ") = true ->
  (forall i, 1 <= i <= List.length (Fields query) ->
             shortcutRepo_GetByWord sr (candidate query i) = Ok None) ->
  forall fuel,
    returned (Resolve (List.length (Fields query) + fuel) sr q query)
    = Some (Err (InvalidQueryError
                   (not_found_prefix ++ Join (Fields query) (str " "))))
    /\ hits (calls (Resolve (List.length (Fields query) + fuel) sr q query)) = [].
Proof.
  intros Hn Hc Hmiss fuel.
  destruct (Resolve_descends sr q query 1 ltac:(lia) ltac:(intros; exact Hc)
              ltac:(intros; apply Hmiss; lia) (S fuel)) as [Hr Hh].
  replace (List.length (Fields query) - 1 + S fuel)
    with (List.length (Fields query) + fuel) in Hr, Hh by lia.
  rewrite Hr, Hh.
  pose proof (Hmiss 1 ltac:(lia)) as H1.
  rewrite <- (trimmed_TrimSpace _ (candidate_trimmed query 1)) in H1.
  assert (Hsp : Contains (TrimSpace (candidate query 1)) (str " ") = false).
  { rewrite (trimmed_TrimSpace _ (candidate_trimmed query 1)).
    rewrite candidate_inner by lia.
    rewrite Contains_space_Join by apply words_firstn, Fields_words.
    rewrite length_firstn. apply Nat.leb_gt. lia. }
  rewrite (GetLink_miss_stop _ _ _ _ _ H1 Hsp). split; [|reflexivity].
  unfold returned; simpl snd. do 3 f_equal.
  rewrite (trimmed_TrimSpace _ (candidate_trimmed query 1)).
  rewrite candidate_inner by lia.
  destruct (Fields query) as [|w0 [|w1 ws]]; simpl in Hn; try lia.
  reflexivity.
Qed.

Lemma Resolve_not_found_message_witness :
  returned (Resolve 3 examples.a_table (examples.usage_log None)
                    (str "  x   y z "))
  = Some (Err (InvalidQueryError (str "Unable to find link for query x y z"))).
Proof.
  refine (proj1 (Resolve_not_found_message
                   examples.a_table (examples.usage_log None)
                   (str "  x   y z ") _ _ _ 0)).
  - vm_compute. lia.
  - reflexivity.
  - intros i Hi. change (List.length (Fields (str "  x   y z "))) with 3 in Hi.
    assert (Ei : i = 1 \/ i = 2 \/ i = 3) by lia.
    destruct Ei as [-> | [-> | ->]]; reflexivity.
Defined.

Lemma moveLastWord_without_words (moveFrom moveTo : gostring) :
  Fields moveFrom = [] -> moveLastWord moveFrom moveTo = (moveFrom, moveTo).
Proof. intros E. unfold moveLastWord. now rewrite E. Qed.

Lemma moveLastWord_with_words (moveFrom moveTo : gostring) :
  Fields moveFrom <> [] ->
  moveLastWord moveFrom moveTo
  = (Join (removelast (Fields moveFrom)) (str " "),
     Join (last (Fields moveFrom) [] :: Fields moveTo) (str " ")).
Proof.
  intros Hne. unfold moveLastWord.
  destruct (Fields moveFrom); [contradiction | reflexivity].
Qed.

(** X3: [moveLastWord] loses and reorders no word: the words of its two
    results, one list after the other, are the words of its two arguments;
    when the first argument has a word, the first result has one word less
    and both results are free of white space at their ends; when it has
    none, the arguments come back as they are. *)
Theorem moveLastWord_keeps_the_words (moveFrom moveTo : gostring) :
  Fields (fst (moveLastWord moveFrom moveTo))
  ++ Fields (snd (moveLastWord moveFrom moveTo))
  = Fields moveFrom ++ Fields moveTo
  /\ (Fields moveFrom <> [] ->
      List.length (Fields (fst (moveLastWord moveFrom moveTo))) + 1
      = List.length (Fields moveFrom)
      /\ trimmed (fst (moveLastWord moveFrom moveTo))
      /\ trimmed (snd (moveLastWord moveFrom moveTo)))
  /\ (Fields moveFrom = [] -> moveLastWord moveFrom moveTo = (moveFrom, moveTo)).
Proof.
  pose proof (Fields_words moveFrom) as Hws.
  pose proof (Fields_words moveTo) as Hto.
  destruct (Fields moveFrom) as [|w ws] eqn:E.
  - rewrite (moveLastWord_without_words moveFrom moveTo E). cbn [fst snd].
    rewrite E. split; [reflexivity|]. split; [congruence | reflexivity].
  - assert (Hne : Fields moveFrom <> []) by (rewrite E; discriminate).
    rewrite (moveLastWord_with_words moveFrom moveTo Hne). cbn [fst snd].
    rewrite E in *.
    assert (Hlast : Forall is_word (last (w :: ws) [] :: Fields moveTo)).
    { constructor; [now apply last_word | exact Hto]. }
    rewrite (Fields_Join (removelast (w :: ws))) by now apply removelast_words.
    rewrite (Fields_Join _ Hlast).
    split; [|split; [|discriminate]].
    + change (removelast (w :: ws) ++ last (w :: ws) [] :: Fields moveTo)
        with (removelast (w :: ws) ++ [last (w :: ws) []] ++ Fields moveTo).
      rewrite app_assoc, <- app_removelast_last by exact Hne. reflexivity.
    + intros _. split; [|split].
      * rewrite length_removelast_words. cbn [List.length]. lia.
      * now apply Join_words_trimmed, removelast_words.
      * now apply Join_words_trimmed.
Qed.

(* ================================================================== *)
(** * Further properties: aliases and termination *)

Section AliasChains.
Context {R Q : Type} {shortcutRepo : ShortcutRepository R}
        {queryRepo : QueryRepository Q}.

Lemma attempts_after {A} (evs : list event) (r : run (Q:=Q) A) :
  attempts (calls (after evs r)) = attempts evs ++ attempts (calls r).
Proof.
  rewrite calls_after. induction evs as [|[w a|id a] evs IH]; simpl;
    now rewrite ?IH.
Qed.

Lemma looked_up_after {A} (evs : list event) (r : run (Q:=Q) A) :
  looked_up (calls (after evs r)) = looked_up evs ++ looked_up (calls r).
Proof.
  rewrite calls_after. induction evs as [|[w a|id a] evs IH]; simpl;
    now rewrite ?IH.
Qed.

(** Two aliases that point at each other: no budget is enough. *)
Lemma alias_cycle_runs_on (sr : R) (a : gostring) (sa sb : Shortcut) :
  shortcutRepo_GetByWord sr (TrimSpace a) = Ok (Some sa) ->
  isURL (Link sa) = false ->
  shortcutRepo_GetByWord sr (TrimSpace (Link sa)) = Ok (Some sb) ->
  isURL (Link sb) = false ->
  TrimSpace (Link sb) = TrimSpace a ->
  forall fuel (q : Q) searchTerm,
    (returned (GetLink fuel sr q a searchTerm) = None
     /\ List.length (attempts (calls (GetLink fuel sr q a searchTerm))) = fuel)
    /\ (returned (GetLink fuel sr q (Link sa) searchTerm) = None
        /\ List.length (attempts (calls (GetLink fuel sr q (Link sa) searchTerm)))
           = fuel).
Proof.
  intros Ha Hna Hb Hnb Hback. induction fuel as [|fuel IH]; intros q searchTerm.
  - repeat split.
  - rewrite (GetLink_hit_alias _ _ _ _ _ _ Ha Hna).
    rewrite (GetLink_hit_alias _ _ _ _ _ _ Hb Hnb).
    rewrite !returned_after, !attempts_after.
    rewrite (GetLink_trims fuel sr _ (Link sb)), Hback, <- GetLink_trims.
    destruct (IH (fst (queryRepo_Create q (ID sa))) searchTerm) as [_ [Hr1 Hl1]].
    destruct (IH (fst (queryRepo_Create q (ID sb))) searchTerm) as [[Hr2 Hl2] _].
    simpl attempts. simpl List.length. rewrite Hr1, Hl1, Hr2, Hl2. repeat split.
Qed.

(** Without aliases a call returns within as many calls as its head has
    words, one at least, and looks up no more heads than that. *)
Lemma GetLink_returns_without_aliases (sr : R) :
  (forall w s, shortcutRepo_GetByWord sr w = Ok (Some s) -> isURL (Link s) = true) ->
  forall fuel (q : Q) word searchTerm,
    List.length (looked_up (calls (GetLink fuel sr q word searchTerm)))
    <= Nat.max 1 (List.length (Fields word))
    /\ (Nat.max 1 (List.length (Fields word)) <= fuel ->
        returned (GetLink fuel sr q word searchTerm) <> None).
Proof.
  intros Hfree. induction fuel as [|fuel IH]; intros q word searchTerm.
  - split; [cbn [List.length GetLink calls looked_up snd fst]; lia | lia].
  - destruct (shortcutRepo_GetByWord sr (TrimSpace word)) as [[s|]|err] eqn:Hget.
    + rewrite (GetLink_hit_url _ _ _ _ _ _ Hget (Hfree _ _ Hget)).
      split; [unfold calls; cbn [List.length looked_up snd fst]; lia | discriminate].
    + destruct (Contains (TrimSpace word) (str " ")) eqn:Hc.
      * rewrite (GetLink_miss_split _ _ _ _ _ Hget Hc), returned_after, looked_up_after.
        rewrite (moveLastWord_split _ searchTerm (TrimSpace_trimmed word) Hc).
        cbn [fst snd].
        pose proof (trimmed_space_two_words _ (TrimSpace_trimmed word) Hc) as Hn.
        rewrite Fields_TrimSpace in *.
        match goal with
        | |- context [GetLink fuel sr q ?w ?t] =>
            destruct (IH q w t) as [Hl Hr]
        end.
        rewrite Fields_Join in Hl, Hr by apply removelast_words, Fields_words.
        rewrite length_removelast_words in Hl, Hr.
        split; [cbn [looked_up List.length app]; lia | intros Hf; apply Hr; lia].
      * rewrite (GetLink_miss_stop _ _ _ _ _ Hget Hc).
        split; [unfold calls; cbn [List.length looked_up snd fst]; lia | discriminate].
    + rewrite (GetLink_lookup_error _ _ _ _ _ _ Hget).
      split; [unfold calls; cbn [List.length looked_up snd fst]; lia | discriminate].
Qed.

End AliasChains.

(** X4: two aliases that point at each other make [GetLink] run without
    end: whatever the budget of recursive calls, the call has not returned
    when it is used up, and every one of these calls has asked the usage
    log for a record. *)
Theorem GetLink_alias_cycle_never_returns
  {R Q : Type} {shortcutRepo : ShortcutRepository R}
  {queryRepo : QueryRepository Q}
  (sr : R) (q : Q) (a searchTerm : gostring) (sa sb : Shortcut) (fuel : nat) :
  shortcutRepo_GetByWord sr (TrimSpace a) = Ok (Some sa) ->
  isURL (Link sa) = false ->
  shortcutRepo_GetByWord sr (TrimSpace (Link sa)) = Ok (Some sb) ->
  isURL (Link sb) = false ->
  TrimSpace (Link sb) = TrimSpace a ->
  returned (GetLink fuel sr q a searchTerm) = None
  /\ List.length (attempts (calls (GetLink fuel sr q a searchTerm))) = fuel.
Proof.
  intros Ha Hna Hb Hnb Hback.
  exact (proj1 (alias_cycle_runs_on sr a sa sb Ha Hna Hb Hnb Hback fuel q searchTerm)).
Qed.

Lemma GetLink_alias_cycle_never_returns_witness :
  returned (GetLink 50 more_examples.cycle_table (examples.usage_log None)
                    (str "a") (str "x")) = None
  /\ List.length (attempts (calls (GetLink 50 more_examples.cycle_table
                                           (examples.usage_log None)
                                           (str "a") (str "x")))) = 50.
Proof.
  exact (GetLink_alias_cycle_never_returns
           more_examples.cycle_table (examples.usage_log None)
           (str "a") (str "x")
           (examples.row 1 "a" "b") (examples.row 2 "b" "a") 50
           eq_refl eq_refl eq_refl eq_refl eq_refl).
Defined.

(** X5: when every mapping the keyword store returns has a URL target,
    [GetLink] returns: a budget of as many calls as the head has words, one
    for a head without words, is enough, and no more heads than that are
    looked up. *)
Theorem GetLink_returns_when_no_alias
  {R Q : Type} {shortcutRepo : ShortcutRepository R}
  {queryRepo : QueryRepository Q}
  (sr : R) (q : Q) (word searchTerm : gostring) (fuel : nat) :
  (forall w s, shortcutRepo_GetByWord sr w = Ok (Some s) -> isURL (Link s) = true) ->
  Nat.max 1 (List.length (Fields word)) <= fuel ->
  returned (GetLink fuel sr q word searchTerm) <> None
  /\ List.length (looked_up (calls (GetLink fuel sr q word searchTerm)))
     <= Nat.max 1 (List.length (Fields word)).
Proof.
  intros Hfree Hfuel.
  destruct (GetLink_returns_without_aliases sr Hfree fuel q word searchTerm)
    as [Hl Hr].
  split; [now apply Hr | exact Hl].
Qed.

Lemma GetLink_returns_when_no_alias_witness :
  returned (GetLink 3 examples.search_table (examples.usage_log None)
                    (str "find  this now") []) <> None.
Proof.
  refine (proj1 (GetLink_returns_when_no_alias
                   examples.search_table (examples.usage_log None)
                   (str "find  this now") [] 3 _ _)).
  - intros w s Hget. apply GetByWord_found in Hget.
    destruct Hget as (Hin & _). simpl in Hin. destruct Hin as [<-|[]]. reflexivity.
  - vm_compute. lia.
Defined.

(* ================================================================== *)
(** * Further properties: [UpdateLink] and the keyword store *)

Section Updates.
Local Open Scope Z_scope.

Lemma validateLinkRequest_accepts (req : LinkRequest) :
  validateLinkRequest req = None ->
  TrimSpace (Request_Word req) <> []
  /\ HasSuffix (TrimSpace (Request_Word req)) (str "/") = false
  /\ TrimSpace (Request_Link req) <> []
  /\ TrimSpace (Request_Link req) <> TrimSpace (Request_Word req).
Proof.
  rewrite validateLinkRequest_cases. cbv zeta.
  destruct (eqb (TrimSpace (Request_Word req)) []) eqn:Ew; [discriminate|].
  destruct (HasSuffix (TrimSpace (Request_Word req)) (str "/")); [discriminate|].
  destruct (eqb (TrimSpace (Request_Link req)) []) eqn:El; [discriminate|].
  destruct (eqb (TrimSpace (Request_Link req)) (TrimSpace (Request_Word req))) eqn:Eq;
    [discriminate|].
  intros _. apply eqb_neq in Ew, El, Eq. auto.
Qed.

(** A request that [UpdateLink] answers with [nil] has passed the checks
    and has gone to [Create]. *)
Lemma UpdateLink_accepted {R : Type} {shortcutRepo : ShortcutRepository R}
      (sr sr' : R) req userID now :
  UpdateLink sr req userID now = (sr', None) ->
  validateLinkRequest req = None
  /\ isURL (Request_Link req) = true
  /\ sr' = fst (shortcutRepo_Create sr (new_shortcut req userID now)).
Proof.
  unfold UpdateLink. fold (new_shortcut req userID now).
  destruct (validateLinkRequest req); [discriminate|].
  destruct (isURL (Request_Link req)); simpl negb; cbv iota; [|discriminate].
  destruct (shortcutRepo_Create sr (new_shortcut req userID now)) as [sr1 [s|e]];
    [|discriminate].
  intros E. injection E as <-. auto.
Qed.

Lemma GetByWord_after_Create (r : repository.ShortcutRepository) (shortcut : Shortcut) :
  ShortcutRepository_GetByWord (fst (ShortcutRepository_Create r shortcut))
                               (Word shortcut)
  = Ok (Some {| ID := Z.max (sqlite_sequence r) (max_rowid (linktable r)) + 1;
                Word := Word shortcut; Link := Link shortcut;
                User := User shortcut; CreatedAt := current_timestamp r |}).
Proof.
  unfold ShortcutRepository_GetByWord. simpl. f_equal.
  rewrite where_word_app. simpl. rewrite eqb_refl. apply max_id_row_last.
  intros s Hs. apply where_word_In in Hs. destruct Hs as [Hs _].
  apply max_rowid_ge in Hs. simpl. lia.
Qed.

Lemma GetByWord_other_after_Create (r : repository.ShortcutRepository)
      (shortcut : Shortcut) (word : gostring) :
  word <> Word shortcut ->
  ShortcutRepository_GetByWord (fst (ShortcutRepository_Create r shortcut)) word
  = ShortcutRepository_GetByWord r word.
Proof.
  intros Hne. unfold ShortcutRepository_GetByWord. simpl.
  rewrite where_word_other; [reflexivity|]. repeat constructor. simpl. congruence.
Qed.

(** The tables that [UpdateLink] builds are what the schema allows, they
    hold no alias, and their keywords pass the checks. *)
Lemma populated_invariant (r : repository.ShortcutRepository) :
  populated r ->
  well_formed r /\ alias_free r
  /\ Forall (fun s => TrimSpace (Word s) <> []
                      /\ HasSuffix (TrimSpace (Word s)) (str "/") = false
                      /\ TrimSpace (Link s) <> TrimSpace (Word s))
            (linktable r).
Proof.
  induction 1 as [now|r now Hp IH|r req userID now r' Hp IH Hup].
  - split; [apply empty_well_formed|]. split; constructor.
  - destruct IH as ([Hnd Hall] & Hfree & Hkw). repeat split; assumption.
  - destruct IH as (Hwf & Hfree & Hkw).
    apply UpdateLink_accepted in Hup. destruct Hup as (Hv & Hurl & ->).
    apply validateLinkRequest_accepts in Hv. destruct Hv as (Hw & Hs & _ & Hne).
    split; [now apply Create_well_formed|].
    split; simpl; apply Forall_app; split; try assumption;
      repeat constructor; simpl; assumption.
Qed.

Lemma alias_free_lookup (r : repository.ShortcutRepository) :
  alias_free r ->
  forall w s, shortcutRepo_GetByWord r w = Ok (Some s) -> isURL (Link s) = true.
Proof.
  intros Hfree w s Hget. apply GetByWord_found in Hget. destruct Hget as (Hin & _).
  unfold alias_free in Hfree. rewrite Forall_forall in Hfree. now apply Hfree.
Qed.

(** Every mapping a call of [GetLink] finds was looked up under a head
    without white space at its ends. *)
Lemma hits_under_trimmed_heads {R Q : Type} {shortcutRepo : ShortcutRepository R}
      {queryRepo : QueryRepository Q} fuel :
  forall (sr : R) (q : Q) word searchTerm s,
    In s (hits (calls (GetLink fuel sr q word searchTerm))) ->
    exists w, trimmed w /\ shortcutRepo_GetByWord sr w = Ok (Some s).
Proof.
  induction fuel as [|fuel IH]; intros sr q word searchTerm s; [contradiction|].
  destruct (shortcutRepo_GetByWord sr (TrimSpace word)) as [[m|]|err] eqn:Hget.
  - destruct (isURL (Link m)) eqn:Hurl.
    + rewrite (GetLink_hit_url _ _ _ _ _ _ Hget Hurl). unfold calls. simpl.
      intros [<-|[]]. exists (TrimSpace word). split; [apply TrimSpace_trimmed | exact Hget].
    + rewrite (GetLink_hit_alias _ _ _ _ _ _ Hget Hurl), calls_after. simpl.
      intros [<-|Hin]; [|exact (IH _ _ _ _ _ Hin)].
      exists (TrimSpace word). split; [apply TrimSpace_trimmed | exact Hget].
  - destruct (Contains (TrimSpace word) (str " ")) eqn:Hc.
    + rewrite (GetLink_miss_split _ _ _ _ _ Hget Hc), calls_after. simpl.
      intros Hin. exact (IH _ _ _ _ _ Hin).
    + rewrite (GetLink_miss_stop _ _ _ _ _ Hget Hc). contradiction.
  - rewrite (GetLink_lookup_error _ _ _ _ _ _ Hget). contradiction.
Qed.

Lemma select_latest_sorted (r : repository.ShortcutRepository) :
  well_formed r ->
  StronglySorted id_strictly_desc (select_latest_per_word (linktable r))
  /\ NoDup (map Word (select_latest_per_word (linktable r))).
Proof.
  intros [Hids _].
  assert (Hwords : NoDup (map Word (select_latest_per_word (linktable r)))).
  { unfold select_latest_per_word.
    apply (Permutation_NoDup
             (Permutation_map Word
                (Permutation_sym (order_by_id_desc_Permutation _)))).
    apply group_rows_NoDup, distinct_NoDup. }
  split; [|exact Hwords].
  apply (sorted_strictly (linktable r)); [exact Hids | |
                                          now apply NoDup_map_inv in Hwords |
                                          apply order_by_id_desc_sorted].
  intros s Hs. apply select_latest_In, max_id_row_In, where_word_In in Hs. tauto.
Qed.

Lemma sorted_head (l : list Shortcut) (x : Shortcut) :
  StronglySorted id_strictly_desc l -> In x l ->
  (forall y, In y l -> ID y <= ID x) ->
  exists rest, l = x :: rest.
Proof.
  intros Hs Hin Hmax. destruct l as [|h rest]; [contradiction|].
  destruct Hin as [->|Hin]; [now exists rest|]. exfalso.
  apply StronglySorted_inv in Hs. destruct Hs as [_ Hh].
  rewrite Forall_forall in Hh. specialize (Hh x Hin).
  specialize (Hmax h (or_introl eq_refl)). unfold id_strictly_desc in Hh. lia.
Qed.

End Updates.

(** X6: a table built from the empty one by requests that [UpdateLink]
    accepted is one the schema allows (identifiers positive, pairwise
    different, none above the counter), holds no alias (every target is an
    absolute URL), and each of its keywords, once trimmed, is not empty,
    does not end in [/] and is not the trimmed target. *)
Theorem populated_tables_hold_urls_only (r : repository.ShortcutRepository) :
  populated r ->
  well_formed r
  /\ alias_free r
  /\ Forall (fun s => TrimSpace (Word s) <> []
                      /\ HasSuffix (TrimSpace (Word s)) (str "/") = false
                      /\ TrimSpace (Link s) <> TrimSpace (Word s))
            (linktable r).
Proof. apply populated_invariant. Qed.

Lemma populated_tables_hold_urls_only_witness :
  alias_free (fst (UpdateLink (examples.table []) more_examples.docs_request
                              (str "testuser") 0%Z)).
Proof.
  refine (proj1 (proj2 (populated_tables_hold_urls_only _ _))).
  exact (populated_update (examples.table []) more_examples.docs_request
                          (str "testuser") 0%Z _
                          (populated_empty 0%Z) eq_refl).
Defined.

(** X7: after [UpdateLink] has accepted a request, the lookup of its
    keyword returns the new row, with the link and the user of the request
    and an identifier above all the others; the lookups of other keywords
    are as before; and when the keyword has no white space at its ends,
    [GetLink] for it returns the link with the tail substituted. *)
Theorem UpdateLink_then_GetLink
  (r r' : repository.ShortcutRepository) (req : LinkRequest)
  (userID : gostring) (now : Time) :
  UpdateLink r req userID now = (r', None) ->
  (exists row,
      ShortcutRepository_GetByWord r' (Request_Word req) = Ok (Some row)
      /\ Word row = Request_Word req /\ Link row = Request_Link req
      /\ User row = userID
      /\ forall s, In s (linktable r) -> (ID s < ID row)%Z)
  /\ (forall word, word <> Request_Word req ->
                   ShortcutRepository_GetByWord r' word
                   = ShortcutRepository_GetByWord r word)
  /\ (trimmed (Request_Word req) ->
      forall (Q : Type) (queryRepo : QueryRepository Q) (q : Q) fuel tail,
        returned (GetLink (S fuel) r' q (Request_Word req) tail)
        = Some (Ok (processResultLink (Request_Link req) tail))).
Proof.
  intros Hup. apply UpdateLink_accepted in Hup. destruct Hup as (_ & Hurl & ->).
  pose proof (GetByWord_after_Create r (new_shortcut req userID now)) as Hget.
  simpl Word in Hget; simpl Link in Hget; simpl User in Hget.
  split; [|split].
  - eexists. split; [exact Hget|]. repeat split.
    intros s Hs. apply max_rowid_ge in Hs. simpl. lia.
  - intros word Hne.
    now apply (GetByWord_other_after_Create r (new_shortcut req userID now)).
  - intros Htrim Q queryRepo q fuel tail.
    assert (Hhit : shortcutRepo_GetByWord
                     (fst (ShortcutRepository_Create r (new_shortcut req userID now)))
                     (TrimSpace (Request_Word req)) = Ok (Some _))
      by (rewrite (trimmed_TrimSpace _ Htrim); exact Hget).
    now rewrite (GetLink_hit_url _ _ _ _ _ _ Hhit Hurl).
Qed.

Lemma UpdateLink_then_GetLink_witness :
  returned (GetLink 1 (fst (UpdateLink examples.a_table more_examples.docs_request
                                       (str "testuser") 0%Z))
                    (examples.usage_log None) (str "docs") [])
  = Some (Ok (str "https://docs.example.com")).
Proof.
  refine (proj2 (proj2 (UpdateLink_then_GetLink
                          examples.a_table _ more_examples.docs_request
                          (str "testuser") 0%Z eq_refl))
                _ _ mock_QueryRepository (examples.usage_log None) 0 []).
  vm_compute. auto.
Defined.

(** X8: a row whose keyword has white space at an end is found by no call
    of [GetLink], whatever the query: every head is trimmed before it is
    looked up.  [UpdateLink] stores the keyword of a request as it is
    given, so such a row can be created and is then dead. *)
Theorem untrimmed_keyword_is_never_found
  (r : repository.ShortcutRepository) (s : Shortcut) :
  In s (linktable r) ->
  TrimSpace (Word s) <> Word s ->
  forall (Q : Type) (queryRepo : QueryRepository Q) (q : Q) fuel word searchTerm,
    ~ In s (hits (calls (GetLink fuel r q word searchTerm))).
Proof.
  intros _ Hpad Q queryRepo q fuel word searchTerm Hin.
  apply hits_under_trimmed_heads in Hin. destruct Hin as (w & Hw & Hget).
  apply GetByWord_found in Hget. destruct Hget as (_ & <- & _).
  apply Hpad. now apply trimmed_TrimSpace.
Qed.

Lemma untrimmed_keyword_is_never_found_witness :
  UpdateLink (examples.table []) more_examples.padded_request (str "testuser") 0%Z
  = (examples.table [examples.row 1 " docs" "https://docs.example.com"], None)
  /\ ~ In (examples.row 1 " docs" "https://docs.example.com")
          (hits (calls (GetLink 2 (examples.table
                                     [examples.row 1 " docs" "https://docs.example.com"])
                                (examples.usage_log None) (str " docs") []))).
Proof.
  split; [reflexivity|].
  apply (untrimmed_keyword_is_never_found
           (examples.table [examples.row 1 " docs" "https://docs.example.com"])
           (examples.row 1 " docs" "https://docs.example.com")).
  - left. reflexivity.
  - vm_compute. discriminate.
Defined.

(** X9: when [Create] of the keyword store has succeeded, the table is the
    old one with one row appended; the shortcut that comes back is the one
    given with the identifier of that row, and that identifier is above
    every one in the old table; the row carries the word, the link and the
    user of the shortcut and, as its creation time, the clock of the
    database, not the [CreatedAt] of the shortcut; the lookup of the word
    then returns this row, and the lookups of other words are as before. *)
Theorem Create_then_GetByWord
  (r r' : repository.ShortcutRepository) (shortcut created : Shortcut) :
  ShortcutRepository_Create r shortcut = (r', Ok created) ->
  exists row,
    linktable r' = linktable r ++ [row]
    /\ row = {| ID := ID created; Word := Word shortcut; Link := Link shortcut;
                User := User shortcut; CreatedAt := current_timestamp r |}
    /\ created = {| ID := ID row; Word := Word shortcut; Link := Link shortcut;
                    User := User shortcut; CreatedAt := CreatedAt shortcut |}
    /\ (forall s, In s (linktable r) -> (ID s < ID row)%Z)
    /\ ShortcutRepository_GetByWord r' (Word shortcut) = Ok (Some row)
    /\ (forall word, word <> Word shortcut ->
                     ShortcutRepository_GetByWord r' word
                     = ShortcutRepository_GetByWord r word).
Proof.
  intros Hcreate.
  assert (Hr : r' = fst (ShortcutRepository_Create r shortcut))
    by now rewrite Hcreate.
  assert (Hc : Ok created = snd (ShortcutRepository_Create r shortcut))
    by now rewrite Hcreate.
  injection Hc as ->. subst r'.
  eexists. split; [reflexivity|]. split; [reflexivity|]. split; [reflexivity|].
  split; [|split].
  - intros s Hs. apply max_rowid_ge in Hs. simpl. lia.
  - apply GetByWord_after_Create.
  - intros word Hne. now apply GetByWord_other_after_Create.
Qed.

Lemma Create_then_GetByWord_witness :
  exists row,
    linktable (fst (ShortcutRepository_Create
                      examples.a_table
                      (examples.row 0 "docs" "https://docs.example.com")))
    = linktable examples.a_table ++ [row]
    /\ ID row = 2%Z.
Proof.
  destruct (Create_then_GetByWord
              examples.a_table _
              (examples.row 0 "docs" "https://docs.example.com") _ eq_refl)
    as (row & Ht & Hrow & _).
  exists row. split; [exact Ht|]. rewrite Hrow. reflexivity.
Defined.

(** X10: when the lookup of a word has succeeded, its answer is [nil]
    exactly when no row of the table has that word (the words are compared
    as they are); and, in a table the schema allows, the answer is a row
    exactly when that row is in the table, has the word, and no row with
    the word has a larger identifier. *)
Theorem GetByWord_finds_the_newest
  (r : repository.ShortcutRepository) (word : gostring)
  (answer : option Shortcut) :
  well_formed r ->
  ShortcutRepository_GetByWord r word = Ok answer ->
  (answer = None <-> forall s, In s (linktable r) -> Word s <> word)
  /\ (forall s,
         answer = Some s
         <-> In s (linktable r) /\ Word s = word
             /\ forall s', In s' (linktable r) -> Word s' = word ->
                           (ID s' <= ID s)%Z).
Proof.
  intros [Hids _] Hget. split.
  - split.
    + intros -> s Hs Hw. unfold ShortcutRepository_GetByWord in Hget.
      injection Hget as E. apply max_id_row_None in E.
      assert (Hin : In s (where_word word (linktable r))) by now apply where_word_In.
      rewrite E in Hin. contradiction.
    + intros Hno. destruct answer as [m|]; [|reflexivity].
      apply GetByWord_found in Hget. destruct Hget as (Hin & Hw & _).
      now destruct (Hno m Hin).
  - intros s. split.
    + intros ->. now apply GetByWord_found.
    + intros (Hin & Hw & Hmax). unfold ShortcutRepository_GetByWord in Hget.
      injection Hget as E. rewrite <- E.
      destruct (max_id_row (where_word word (linktable r))) as [m|] eqn:Em.
      * pose proof (max_id_row_ge _ _ Em s ltac:(now apply where_word_In)) as Hle.
        apply max_id_row_In, where_word_In in Em. destruct Em as [Hm Hmw].
        specialize (Hmax m Hm Hmw). f_equal.
        apply (same_id_same_row (linktable r) Hids); auto. lia.
      * apply max_id_row_None in Em.
        assert (Hs : In s (where_word word (linktable r))) by now apply where_word_In.
        rewrite Em in Hs. contradiction.
Qed.

Lemma GetByWord_finds_the_newest_witness :
  In (examples.row 3 "a" "http://a") (linktable examples.history_table)
  /\ forall s', In s' (linktable examples.history_table) ->
                Word s' = str "a" -> (ID s' <= 3)%Z.
Proof.
  assert (Hwf : well_formed examples.history_table).
  { split; simpl.
    - repeat constructor; simpl; intuition discriminate.
    - repeat constructor; vm_compute; discriminate. }
  destruct (proj1 (proj2 (GetByWord_finds_the_newest
                            examples.history_table (str "a") _ Hwf eq_refl)
                         (examples.row 3 "a" "http://a")) eq_refl)
    as (Hin & _ & Hmax).
  split; [exact Hin | exact Hmax].
Defined.

(* ================================================================== *)
(** * Further properties: the listing of keywords *)

Lemma GetAllKeywords_of_table (r : repository.ShortcutRepository) :
  GetAllKeywords r
  = Ok (map scan_keyword
            (filter (fun s => isURL (Link s))
                    (select_latest_per_word (linktable r)))).
Proof.
  unfold GetAllKeywords. simpl. now rewrite filter_map_swap.
Qed.

(** X11: [GetAllKeywords] of the keyword store lists every keyword of the
    table exactly once, aliases included, each with the link and the
    creation time of its row of largest identifier; for the empty table
    the list is empty. *)
Theorem repository_GetAllKeywords_lists_every_keyword
  (r : repository.ShortcutRepository) :
  exists live : list Shortcut,
    ShortcutRepository_GetAllKeywords r = Ok (map scan_keyword live)
    /\ NoDup (map Word live)
    /\ (forall word, In word (map Word live) <-> In word (map Word (linktable r)))
    /\ (forall s, In s live
                  <-> ShortcutRepository_GetByWord r (Word s) = Ok (Some s))
    /\ (linktable r = [] -> live = []).
Proof.
  exists (select_latest_per_word (linktable r)).
  split; [reflexivity|]. split; [|split; [|split]].
  - unfold select_latest_per_word.
    apply (Permutation_NoDup
             (Permutation_map Word
                (Permutation_sym (order_by_id_desc_Permutation _)))).
    apply group_rows_NoDup, distinct_NoDup.
  - intros word. rewrite !in_map_iff. split.
    + intros (s & Ew & Hs). exists s. split; [exact Ew|].
      apply select_latest_In, max_id_row_In, where_word_In in Hs. tauto.
    + intros (s & Ew & Hs).
      destruct (max_id_row (where_word word (linktable r))) as [m|] eqn:E.
      * pose proof (max_id_row_In _ _ E) as Hm. apply where_word_In in Hm.
        destruct Hm as [_ Hw]. exists m. split; [exact Hw|].
        apply select_latest_In. now rewrite Hw.
      * apply max_id_row_None in E.
        assert (Hin : In s (where_word word (linktable r)))
          by now apply where_word_In.
        rewrite E in Hin. contradiction.
  - intros s. rewrite select_latest_In. unfold ShortcutRepository_GetByWord.
    split; [now intros -> | now intros E; injection E].
  - now intros ->.
Qed.

(** X12: after [UpdateLink] has accepted a request on a table the schema
    allows, [GetAllKeywords] of the service lists the keyword of the
    request first, with the link of the request and the time of the
    database clock, and nowhere else. *)
Theorem UpdateLink_then_GetAllKeywords
  (r r' : repository.ShortcutRepository) (req : LinkRequest)
  (userID : gostring) (now : Time) :
  well_formed r ->
  UpdateLink r req userID now = (r', None) ->
  exists rest,
    GetAllKeywords r'
    = Ok ({| Keyword_Word := Request_Word req;
             Keyword_Link := Request_Link req;
             Keyword_CreatedAt := current_timestamp r |} :: rest)
    /\ ~ In (Request_Word req) (map Keyword_Word rest).
Proof.
  intros Hwf Hup. apply UpdateLink_accepted in Hup. destruct Hup as (_ & Hurl & ->).
  pose proof (Create_well_formed r (new_shortcut req userID now) Hwf) as Hwf'.
  destruct (select_latest_sorted _ Hwf') as [Hsorted Hwords].
  pose proof (GetByWord_after_Create r (new_shortcut req userID now)) as Hget.
  simpl Word in Hget; simpl Link in Hget; simpl User in Hget.
  set (row := {| ID := (Z.max (sqlite_sequence r) (max_rowid (linktable r)) + 1)%Z;
                 Word := Request_Word req; Link := Request_Link req;
                 User := userID; CreatedAt := current_timestamp r |}) in *.
  set (rows' := linktable (fst (ShortcutRepository_Create r (new_shortcut req userID now))))
    in *.
  assert (Hin : In row (select_latest_per_word rows')).
  { apply select_latest_In. unfold ShortcutRepository_GetByWord in Hget.
    now injection Hget. }
  assert (Hmax : forall y, In y (select_latest_per_word rows') -> (ID y <= ID row)%Z).
  { intros y Hy. apply select_latest_In, max_id_row_In, where_word_In in Hy.
    destruct Hy as [Hy _]. unfold rows' in Hy. simpl in Hy.
    apply in_app_or in Hy. destruct Hy as [Hy|[<-|[]]]; [|simpl; lia].
    apply max_rowid_ge in Hy. simpl. lia. }
  destruct (sorted_head _ row Hsorted Hin Hmax) as [rest Hrest].
  exists (map scan_keyword (filter (fun s => isURL (Link s)) rest)). split.
  - rewrite GetAllKeywords_of_table.
    change (shortcutRepo_Create r (new_shortcut req userID now))
      with (ShortcutRepository_Create r (new_shortcut req userID now)).
    fold rows'. rewrite Hrest.
    cbn [filter]. unfold row at 1. cbn [Link]. rewrite Hurl. reflexivity.
  - rewrite Hrest in Hwords. simpl in Hwords.
    inversion Hwords as [|? ? Hnot _]; subst.
    intros Hx. apply Hnot. rewrite map_map in Hx. apply in_map_iff in Hx.
    destruct Hx as (s & Es & Hs). apply filter_In in Hs. destruct Hs as [Hs _].
    simpl in Es. rewrite <- Es. now apply in_map.
Qed.

Lemma UpdateLink_then_GetAllKeywords_witness :
  exists rest,
    GetAllKeywords (fst (UpdateLink examples.a_table more_examples.docs_request
                                    (str "testuser") 5%Z))
    = Ok ({| Keyword_Word := str "docs";
             Keyword_Link := str "https://docs.example.com";
             Keyword_CreatedAt := 0%Z |} :: rest)
    /\ ~ In (str "docs") (map Keyword_Word rest).
Proof.
  refine (UpdateLink_then_GetAllKeywords
            examples.a_table _ more_examples.docs_request (str "testuser") 5%Z
            _ eq_refl).
  split; simpl.
  - repeat constructor; simpl; intuition discriminate.
  - repeat constructor; vm_compute; discriminate.
Defined.

(** X13: every entry of the list of [GetAllKeywords] resolves to its own
    link: when its keyword has no white space at its ends, [GetLink] for
    the keyword finds a mapping at the first lookup and returns the listed
    link with the tail substituted. *)
Theorem listed_keywords_resolve
  (r : repository.ShortcutRepository) (keywords : list KeywordInfo)
  (keyword : KeywordInfo) :
  GetAllKeywords r = Ok keywords ->
  In keyword keywords ->
  trimmed (Keyword_Word keyword) ->
  forall (Q : Type) (queryRepo : QueryRepository Q) (q : Q) fuel tail,
    returned (GetLink (S fuel) r q (Keyword_Word keyword) tail)
    = Some (Ok (processResultLink (Keyword_Link keyword) tail)).
Proof.
  rewrite GetAllKeywords_of_table. intros E Hin Htrim Q queryRepo q fuel tail.
  injection E as <-. apply in_map_iff in Hin. destruct Hin as (s & <- & Hs).
  apply filter_In in Hs. destruct Hs as [Hs Hurl].
  cbn [scan_keyword Keyword_Word Keyword_Link] in *. apply select_latest_In in Hs.
  assert (Hget : shortcutRepo_GetByWord r (TrimSpace (Word s)) = Ok (Some s)).
  { rewrite (trimmed_TrimSpace _ Htrim).
    change (ShortcutRepository_GetByWord r (Word s) = Ok (Some s)).
    unfold ShortcutRepository_GetByWord. now rewrite Hs. }
  now rewrite (GetLink_hit_url _ _ _ _ _ _ Hget Hurl).
Qed.

Lemma listed_keywords_resolve_witness :
  returned (GetLink 1 examples.history_table (examples.usage_log None)
                    (str "c") (str "x y"))
  = Some (Ok (str "http://c")).
Proof.
  refine (listed_keywords_resolve
            examples.history_table _ (scan_keyword (examples.row 4 "c" "http://c"))
            eq_refl _ _ _ mock_QueryRepository (examples.usage_log None) 0 (str "x y")).
  - left. reflexivity.
  - vm_compute. auto.
Defined.

(* ================================================================== *)
(** * Further properties: the usage log in the database *)

Section UsageRecords.

Lemma references_found (db : Database) (s : Shortcut) :
  In s (linktable (shortcuts db)) -> references_linktable db (ID s) = true.
Proof.
  intros Hin. unfold references_linktable. apply existsb_exists.
  exists s. split; [exact Hin | apply Z.eqb_refl].
Qed.

End UsageRecords.


(* ================================================================== *)
(** * Further properties: what the tail can put into a destination *)

Section Escaping.
Local Open Scope N_scope.

Lemma lor_below_256 (a b : N) : a < 256 -> b < 256 -> N.lor a b < 256.
Proof.
  intros Ha Hb. destruct (N.eq_dec (N.lor a b) 0) as [E|E]; [rewrite E; lia|].
  change 256 with (2 ^ 8). apply N.log2_lt_pow2; [lia|].
  rewrite N.log2_lor. apply N.max_lub_lt.
  - destruct (N.eq_dec a 0) as [->|Hn]; [reflexivity|].
    apply N.log2_lt_pow2; [lia | exact Ha].
  - destruct (N.eq_dec b 0) as [->|Hn]; [reflexivity|].
    apply N.log2_lt_pow2; [lia | exact Hb].
Qed.

Lemma land_below (a m : N) : N.land a m <= m.
Proof.
  destruct (N.eq_dec (N.land a m) 0) as [E|E]; [rewrite E; lia|].
  destruct (N.le_gt_cases (N.land a m) m) as [H|H]; [exact H|exfalso].
  assert (Hbit : forall n, N.testbit (N.land a m) n = true -> N.testbit m n = true).
  { intros n. rewrite N.land_spec. now intros [_ ?]%andb_true_iff. }
  assert (Hsub : N.ldiff (N.land a m) m = 0).
  { apply N.bits_inj_0. intros n. rewrite N.ldiff_spec.
    destruct (N.testbit (N.land a m) n) eqn:Hn; [|reflexivity].
    now rewrite (Hbit n Hn). }
  apply N.ldiff_le in Hsub. lia.
Qed.

(** The bytes of a code point are bytes. *)
Lemma utf8_encode_bytes (r : rune) : Forall (fun b => b < 256) (url.utf8_encode r).
Proof.
  unfold url.utf8_encode.
  assert (Hlow : forall x, N.lor 128 (N.land x 63) < 256).
  { intros x. apply lor_below_256; [lia|]. pose proof (land_below x 63). lia. }
  destruct (N.leb_spec r 127); [repeat constructor; lia|].
  destruct (N.leb_spec r 2047).
  { repeat constructor; [|apply Hlow]. apply lor_below_256; [lia|].
    rewrite N.shiftr_div_pow2. change (2 ^ 6) with 64.
    apply N.Div0.div_lt_upper_bound. lia. }
  destruct ((1114111 <? r) || (55296 <=? r) && (r <=? 57343)) eqn:Ebad;
    [repeat constructor; lia|].
  apply orb_false_iff in Ebad. destruct Ebad as [Hmax _].
  apply N.ltb_ge in Hmax.
  destruct (N.leb_spec r 65535).
  { repeat constructor; try apply Hlow. apply lor_below_256; [lia|].
    rewrite N.shiftr_div_pow2. change (2 ^ 12) with 4096.
    apply N.Div0.div_lt_upper_bound. lia. }
  repeat constructor; try apply Hlow. apply lor_below_256; [lia|].
  rewrite N.shiftr_div_pow2. change (2 ^ 18) with 262144.
  apply N.Div0.div_lt_upper_bound. lia.
Qed.

Lemma upperhex_escaped (d : N) : d < 16 -> escaped_rune (url.upperhex d) = true.
Proof.
  intros Hd. unfold url.upperhex.
  assert (Ed : d = 0 \/ d = 1 \/ d = 2 \/ d = 3 \/ d = 4 \/ d = 5 \/ d = 6 \/ d = 7
               \/ d = 8 \/ d = 9 \/ d = 10 \/ d = 11 \/ d = 12 \/ d = 13
               \/ d = 14 \/ d = 15) by lia.
  repeat (destruct Ed as [->|Ed]; [reflexivity|]). now subst d.
Qed.

Lemma escape_byte_escaped (c : N) :
  c < 256 -> Forall (fun x => escaped_rune x = true) (url.escape_byte c).
Proof.
  intros Hc. unfold url.escape_byte.
  destruct (c =? 32); [repeat constructor|].
  destruct (url.shouldEscape c) eqn:Es.
  - repeat constructor.
    + apply upperhex_escaped. rewrite N.shiftr_div_pow2. change (2 ^ 4) with 16.
      apply N.Div0.div_lt_upper_bound. lia.
    + apply upperhex_escaped. pose proof (land_below c 15). lia.
  - repeat constructor. unfold escaped_rune. now rewrite Es.
Qed.

Lemma upperhex_hexdigit (d : N) : d < 16 -> hexdigit (url.upperhex d) = true.
Proof.
  intros Hd. unfold url.upperhex.
  assert (Ed : d = 0 \/ d = 1 \/ d = 2 \/ d = 3 \/ d = 4 \/ d = 5 \/ d = 6 \/ d = 7
               \/ d = 8 \/ d = 9 \/ d = 10 \/ d = 11 \/ d = 12 \/ d = 13
               \/ d = 14 \/ d = 15) by lia.
  repeat (destruct Ed as [->|Ed]; [reflexivity|]). now subst d.
Qed.

Lemma escape_byte_piece (c : N) : c < 256 -> escape_piece (url.escape_byte c) = true.
Proof.
  intros Hc. unfold url.escape_byte.
  destruct (c =? 32); [reflexivity|].
  destruct (url.shouldEscape c) eqn:Es.
  - cbn [escape_piece]. rewrite N.eqb_refl, !upperhex_hexdigit; [reflexivity| |].
    + pose proof (land_below c 15). lia.
    + rewrite N.shiftr_div_pow2. change (2 ^ 4) with 16.
      apply N.Div0.div_lt_upper_bound. lia.
  - cbn [escape_piece]. now rewrite Es.
Qed.

Lemma QueryEscape_pieces (s : gostring) :
  url.QueryEscape s = List.concat (map url.escape_byte (flat_map url.utf8_encode s))
  /\ forallb escape_piece (map url.escape_byte (flat_map url.utf8_encode s)) = true.
Proof.
  split; [apply flat_map_concat_map|].
  apply forallb_forall. intros p Hp. apply in_map_iff in Hp.
  destruct Hp as (c & <- & Hc). apply escape_byte_piece.
  apply in_flat_map in Hc. destruct Hc as (r & _ & Hr).
  pose proof (utf8_encode_bytes r) as Hb. rewrite Forall_forall in Hb. now apply Hb.
Qed.

Lemma QueryEscape_escaped (s : gostring) :
  Forall (fun x => escaped_rune x = true) (url.QueryEscape s).
Proof.
  unfold url.QueryEscape. apply Forall_flat_map. apply Forall_forall.
  intros c Hc. apply escape_byte_escaped. apply in_flat_map in Hc.
  destruct Hc as (r & _ & Hr).
  pose proof (utf8_encode_bytes r) as Hb. rewrite Forall_forall in Hb. now apply Hb.
Qed.

(** What [escaped_rune] lets through is printable ASCII from [%] to [~],
    and none of the three characters of the token. *)
Lemma escaped_rune_range (c : rune) :
  escaped_rune c = true ->
  37 <= c <= 126 /\ c <> 123 /\ c <> 42 /\ c <> 125.
Proof.
  unfold escaped_rune, url.shouldEscape. rewrite negb_involutive.
  rewrite !orb_true_iff, !andb_true_iff, !N.leb_le, !N.eqb_eq. lia.
Qed.

Lemma IsSpace_range (c : rune) : IsSpace c = true -> c <= 32 \/ 133 <= c.
Proof.
  unfold IsSpace.
  rewrite !orb_true_iff, !andb_true_iff, !N.leb_le, !N.eqb_eq. lia.
Qed.

Lemma Contains_first (s sub : gostring) (c : rune) :
  Contains s (c :: sub) = true -> In c s.
Proof.
  induction s as [|x s IH]; simpl; [discriminate|].
  rewrite orb_true_iff, andb_true_iff, N.eqb_eq. intros [[-> _]|H]; auto.
Qed.

End Escaping.

(** X15: the value that [processResultLink] puts in place of a token is,
    whatever the tail, a run of pieces each of which is one unreserved
    character (a letter, a digit, [-], [_], [.] or [~]), a [+], or a [%]
    with two upper-case hexadecimal digits; so it holds no white space,
    none of the three characters of the token [{*}], and no raw [/], [?],
    [&], [=] or [#].  This is about the value put in, not about the
    destination: what is left of the target around it can still close up
    to a token. *)
Theorem substituted_value_is_escaped (searchTerm : gostring) :
  (exists pieces,
      encoded_tail searchTerm = List.concat pieces
      /\ forallb escape_piece pieces = true)
  /\ Forall (fun c => escaped_rune c = true) (encoded_tail searchTerm)
  /\ nospace (encoded_tail searchTerm)
  /\ token_free (encoded_tail searchTerm)
  /\ Forall (fun c => ~ In c [47; 63; 38; 61; 35; 32; 123; 42; 125]%N)
            (encoded_tail searchTerm).
Proof.
  pose proof (QueryEscape_escaped
                (TrimSpace (ReplaceAll searchTerm token [])))
    as Hesc.
  fold (encoded_tail searchTerm) in Hesc.
  split.
  { destruct (QueryEscape_pieces (TrimSpace (ReplaceAll searchTerm token [])))
      as [Hcat Hall].
    eexists. split; [exact Hcat | exact Hall]. }
  split; [exact Hesc|]. split; [|split].
  - eapply Forall_impl; [|exact Hesc]. cbn beta. intros c Hc.
    apply escaped_rune_range in Hc. destruct (IsSpace c) eqn:Hs; [|reflexivity].
    apply IsSpace_range in Hs. lia.
  - unfold token_free. destruct (Contains (encoded_tail searchTerm) token) eqn:E;
      [|reflexivity].
    change token with [123; 42; 125]%N in E.
    apply Contains_first in E. rewrite Forall_forall in Hesc.
    apply Hesc, escaped_rune_range in E. lia.
  - eapply Forall_impl; [|exact Hesc]. cbn beta. intros c Hc Hin.
    simpl in Hin.
    repeat (destruct Hin as [<-|Hin]; [discriminate Hc|]). exact Hin.
Qed.

(* ================================================================== *)
(** * Further properties: the two handlers *)

Section Handlers.

Lemma TrimSuffix_absent (s suffix : gostring) :
  HasSuffix s suffix = false -> TrimSuffix s suffix = s.
Proof. intros E. unfold TrimSuffix. now rewrite E. Qed.

Lemma TrimSuffix_slash (s : gostring) : TrimSuffix (s ++ str "/") (str "/") = s.
Proof.
  unfold TrimSuffix, HasSuffix. change (str "/") with [47%N].
  rewrite rev_app_distr. simpl HasPrefix. rewrite length_app. simpl List.length.
  replace (List.length s + 1 - 1) with (List.length s) by lia.
  rewrite firstn_app, Nat.sub_diag, firstn_all. simpl. apply app_nil_r.
Qed.

(** The answers of [RedirectHandler], by what [GetLink] returns. *)
Lemma RedirectHandler_answers {R Q : Type} {shortcutRepo : ShortcutRepository R}
      {queryRepo : QueryRepository Q}
      fuel (config : Config) (sr : R) (q : Q) (path : gostring) :
  snd (RedirectHandler fuel config sr q path)
  = match returned (GetLink fuel sr q (TrimSuffix path (str "/")) []) with
    | None => None
    | Some (Err (InvalidQueryError _)) =>
        Some (HttpRedirect (BaseURL config ++ str "/homepage/?missing="
                                    ++ TrimSuffix path (str "/")) StatusFound)
    | Some (Err _) =>
        Some (HttpError (str "Internal server error") StatusInternalServerError)
    | Some (Ok targetURL) => Some (HttpRedirect targetURL StatusFound)
    end.
Proof.
  unfold RedirectHandler, returned.
  destruct (GetLink fuel sr q (TrimSuffix path (str "/")) [])
    as [[q' tr] [[url|[m|c e|t]]|]]; reflexivity.
Qed.

(** What [UpdateLinkHandler] answers on the table, by what [UpdateLink]
    answers for the trimmed values. *)
Lemma UpdateLinkHandler_on_table (r : repository.ShortcutRepository)
      (word link : gostring) (now : Time) :
  let req := {| Request_Word := TrimSpace word; Request_Link := TrimSpace link |} in
  (exists r',
      UpdateLink r req getUserID now = (r', None)
      /\ UpdateLinkHandler r (Some (word, link)) now
         = (r', HttpWrite (str "text/plain") (str "Link added successfully!")))
  \/ (exists reason,
         UpdateLink r req getUserID now = (r, Some (InvalidQueryError reason))
         /\ In reason [reason_empty_word; reason_trailing_slash; reason_empty_link;
                       reason_self_reference; reason_not_url]
         /\ UpdateLinkHandler r (Some (word, link)) now
            = (r, HttpError reason StatusBadRequest)).
Proof.
  intros req. unfold UpdateLinkHandler. fold req.
  unfold UpdateLink. rewrite validateLinkRequest_cases. cbv zeta.
  destruct (eqb (TrimSpace (Request_Word req)) []);
    [right; eexists; split; [reflexivity|]; split; [simpl; tauto | reflexivity]|].
  destruct (HasSuffix (TrimSpace (Request_Word req)) (str "/"));
    [right; eexists; split; [reflexivity|]; split; [simpl; tauto | reflexivity]|].
  destruct (eqb (TrimSpace (Request_Link req)) []);
    [right; eexists; split; [reflexivity|]; split; [simpl; tauto | reflexivity]|].
  destruct (eqb (TrimSpace (Request_Link req)) (TrimSpace (Request_Word req)));
    [right; eexists; split; [reflexivity|]; split; [simpl; tauto | reflexivity]|].
  destruct (isURL (Request_Link req)); cbn [negb];
    [|right; eexists; split; [reflexivity|]; split; [simpl; tauto | reflexivity]].
  left. eexists. split; reflexivity.
Qed.

(** Going down from [m], the first index at which [P] holds, if any. *)
Lemma last_index (P : nat -> bool) (m : nat) :
  (forall i, 1 <= i <= m -> P i = false)
  \/ (exists j, 1 <= j <= m /\ P j = true
                /\ forall i, j < i <= m -> P i = false).
Proof.
  induction m as [|m IH]; [left; intros; lia|].
  destruct (P (S m)) eqn:E.
  - right. exists (S m). split; [lia|]. split; [exact E | intros; lia].
  - destruct IH as [Hall|(j & Hj & Pj & Hrest)].
    + left. intros i Hi. destruct (Nat.eq_dec i (S m)) as [->|Hne];
        [exact E | apply Hall; lia].
    + right. exists j. split; [lia|]. split; [exact Pj|].
      intros i Hi. destruct (Nat.eq_dec i (S m)) as [->|Hne];
        [exact E | apply Hrest; lia].
Qed.

Lemma trimmed_has_word (s : gostring) : trimmed s -> s <> [] -> Fields s <> [].
Proof.
  intros Ht Hne. destruct s as [|c s]; [contradiction|].
  destruct Ht as [Hc _]. apply fields_from_nonempty. right. now constructor.
Qed.

(** The keyword of a row found in a table built through [UpdateLink] has a
    word. *)
Lemma populated_hit_has_word (r : repository.ShortcutRepository)
      (query : gostring) (s : Shortcut) :
  populated r ->
  ShortcutRepository_GetByWord r (TrimSpace query) = Ok (Some s) ->
  1 <= List.length (Fields query).
Proof.
  intros Hpop Hget. destruct (populated_invariant r Hpop) as (_ & _ & Hwords).
  apply GetByWord_found in Hget. destruct Hget as (Hin & Hw & _).
  rewrite Forall_forall in Hwords. destruct (Hwords s Hin) as (Hne & _).
  assert (Hq : TrimSpace query <> []).
  { intros E. apply Hne. rewrite Hw, E. reflexivity. }
  pose proof (trimmed_has_word _ (TrimSpace_trimmed query) Hq) as Hf.
  rewrite Fields_TrimSpace in Hf. destruct (Fields query); [contradiction|].
  cbn [List.length]. lia.
Qed.

End Handlers.

(** X16: what [UpdateLinkHandler] has stored, [RedirectHandler] finds:
    after the answer "Link added successfully!" to a form with the fields
    [word] and [link], a request for the trimmed [word], with or without a
    [/] after it, is answered with a redirect (302) to the trimmed [link]
    with its tokens taken out. *)
Theorem UpdateLinkHandler_then_RedirectHandler
  (r r' : repository.ShortcutRepository) (word link : gostring) (now : Time) :
  UpdateLinkHandler r (Some (word, link)) now
  = (r', HttpWrite (str "text/plain") (str "Link added successfully!")) ->
  forall (Q : Type) (queryRepo : QueryRepository Q) (q : Q) (config : Config) fuel,
    snd (RedirectHandler (S fuel) config r' q (TrimSpace word))
    = Some (HttpRedirect (processResultLink (TrimSpace link) []) StatusFound)
    /\ snd (RedirectHandler (S fuel) config r' q (TrimSpace word ++ str "/"))
       = Some (HttpRedirect (processResultLink (TrimSpace link) []) StatusFound).
Proof.
  intros Hup Q queryRepo q config fuel.
  destruct (UpdateLinkHandler_on_table r word link now)
    as [(r1 & Hok & Hresp)|(reason & _ & _ & Hresp)];
    [|rewrite Hresp in Hup; discriminate].
  rewrite Hresp in Hup. injection Hup as ->.
  pose proof (UpdateLink_accepted _ _ _ _ _ Hok) as (Hv & _ & _).
  apply validateLinkRequest_accepts in Hv. cbn [Request_Word Request_Link] in Hv.
  destruct Hv as (_ & Hslash & _). rewrite TrimSpace_idem in Hslash.
  assert (Hget : returned (GetLink (S fuel) r' q (TrimSpace word) [])
                 = Some (Ok (processResultLink (TrimSpace link) []))).
  { destruct (UpdateLink_accepted _ _ _ _ _ Hok) as (_ & Hurl & ->).
    pose proof (GetByWord_after_Create
                  r (new_shortcut {| Request_Word := TrimSpace word;
                                     Request_Link := TrimSpace link |}
                                  getUserID now)) as Hrow.
    cbn [Word Link User new_shortcut Request_Word Request_Link] in Hrow, Hurl.
    rewrite <- (TrimSpace_idem word) in Hrow at 2.
    assert (Hhit : shortcutRepo_GetByWord
                     (fst (shortcutRepo_Create
                             r (new_shortcut {| Request_Word := TrimSpace word;
                                                Request_Link := TrimSpace link |}
                                             getUserID now)))
                     (TrimSpace (TrimSpace word)) = Ok (Some _)) by exact Hrow.
    now rewrite (GetLink_hit_url _ _ _ _ _ _ Hhit Hurl). }
  rewrite !RedirectHandler_answers, TrimSuffix_slash,
    (TrimSuffix_absent _ _ Hslash), Hget.
  split; reflexivity.
Qed.

Lemma UpdateLinkHandler_then_RedirectHandler_witness :
  snd (RedirectHandler 1 more_examples.config
         (fst (UpdateLinkHandler examples.a_table
                 (Some (str "  docs ", str " https://docs.example.com/{*} ")) 0%Z))
         (examples.usage_log None) (str "docs/"))
  = Some (HttpRedirect (str "https://docs.example.com/") 302).
Proof.
  exact (proj2 (UpdateLinkHandler_then_RedirectHandler
                  examples.a_table _
                  (str "  docs ") (str " https://docs.example.com/{*} ") 0%Z
                  eq_refl _ mock_QueryRepository (examples.usage_log None)
                  more_examples.config 0)).
Defined.

(** X17: what [UpdateLinkHandler] answers, for every keyword store.  A
    form that cannot be parsed gets status 400 with "Invalid form data".
    Otherwise the fields [word] and [link] are trimmed (an absent field is
    empty) and the five checks of [UpdateLink] are made in their order; the
    first that fails gets status 400 with its own message, and the store is
    left alone.  A form that passes them all goes to [Create] of the store
    as a shortcut with the trimmed word, the trimmed link and the user
    "DefaultUser": when [Create] succeeds the answer is the plain text
    "Link added successfully!", when it fails the answer is status 500 with
    "Internal server error"; either way the store is as [Create] left
    it. *)
Theorem UpdateLinkHandler_answers
  {R : Type} {shortcutRepo : ShortcutRepository R}
  (sr : R) (word link : gostring) (now : Time) :
  UpdateLinkHandler sr None now
  = (sr, HttpError (str "Invalid form data") StatusBadRequest)
  /\ (TrimSpace word = [] ->
      UpdateLinkHandler sr (Some (word, link)) now
      = (sr, HttpError reason_empty_word StatusBadRequest))
  /\ (TrimSpace word <> [] ->
      HasSuffix (TrimSpace word) (str "/") = true ->
      UpdateLinkHandler sr (Some (word, link)) now
      = (sr, HttpError reason_trailing_slash StatusBadRequest))
  /\ (TrimSpace word <> [] ->
      HasSuffix (TrimSpace word) (str "/") = false ->
      TrimSpace link = [] ->
      UpdateLinkHandler sr (Some (word, link)) now
      = (sr, HttpError reason_empty_link StatusBadRequest))
  /\ (TrimSpace word <> [] ->
      HasSuffix (TrimSpace word) (str "/") = false ->
      TrimSpace link <> [] ->
      TrimSpace link = TrimSpace word ->
      UpdateLinkHandler sr (Some (word, link)) now
      = (sr, HttpError reason_self_reference StatusBadRequest))
  /\ (TrimSpace word <> [] ->
      HasSuffix (TrimSpace word) (str "/") = false ->
      TrimSpace link <> [] ->
      TrimSpace link <> TrimSpace word ->
      isURL (TrimSpace link) = false ->
      UpdateLinkHandler sr (Some (word, link)) now
      = (sr, HttpError reason_not_url StatusBadRequest))
  /\ (TrimSpace word <> [] ->
      HasSuffix (TrimSpace word) (str "/") = false ->
      TrimSpace link <> [] ->
      TrimSpace link <> TrimSpace word ->
      isURL (TrimSpace link) = true ->
      UpdateLinkHandler sr (Some (word, link)) now
      = (fst (shortcutRepo_Create
                sr {| ID := 0; Word := TrimSpace word; Link := TrimSpace link;
                      User := str "DefaultUser"; CreatedAt := now |}),
         match snd (shortcutRepo_Create
                      sr {| ID := 0; Word := TrimSpace word;
                            Link := TrimSpace link;
                            User := str "DefaultUser"; CreatedAt := now |}) with
         | Ok _ => HttpWrite (str "text/plain") (str "Link added successfully!")
         | Err _ =>
             HttpError (str "Internal server error") StatusInternalServerError
         end)).
Proof.
  split; [reflexivity|].
  unfold UpdateLinkHandler, UpdateLink. rewrite validateLinkRequest_cases.
  cbv zeta. cbn [Request_Word Request_Link]. rewrite !TrimSpace_idem.
  destruct (eqb (TrimSpace word) []) eqn:Ew.
  { apply eqb_eq in Ew. repeat split; intros; congruence. }
  apply eqb_neq in Ew.
  destruct (HasSuffix (TrimSpace word) (str "/")) eqn:Es.
  { repeat split; intros; congruence. }
  destruct (eqb (TrimSpace link) []) eqn:El.
  { apply eqb_eq in El. repeat split; intros; congruence. }
  apply eqb_neq in El.
  destruct (eqb (TrimSpace link) (TrimSpace word)) eqn:Eq.
  { apply eqb_eq in Eq. repeat split; intros; congruence. }
  apply eqb_neq in Eq.
  destruct (isURL (TrimSpace link)) eqn:Eu; cbn [negb].
  - repeat split; intros; try congruence.
    change getUserID with (str "DefaultUser").
    now destruct (shortcutRepo_Create
                    sr {| ID := 0; Word := TrimSpace word; Link := TrimSpace link;
                          User := str "DefaultUser"; CreatedAt := now |})
      as [sr' [created|err]].
  - repeat split; intros; congruence.
Qed.

Lemma UpdateLinkHandler_answers_witness :
  UpdateLinkHandler (examples.table []) (Some (str " docs/ ", str "x")) 0%Z
  = (examples.table [], HttpError reason_trailing_slash StatusBadRequest)
  /\ UpdateLinkHandler (examples.table []) (Some (str "docs", str " docs ")) 0%Z
     = (examples.table [], HttpError reason_self_reference StatusBadRequest)
  /\ UpdateLinkHandler (examples.table []) (Some (str "docs", str "docs.example.com")) 0%Z
     = (examples.table [], HttpError reason_not_url StatusBadRequest)
  /\ UpdateLinkHandler (examples.table [])
                       (Some (str " docs ", str " https://docs.example.com ")) 7%Z
     = ({| linktable := [{| ID := 1; Word := str "docs";
                            Link := str "https://docs.example.com";
                            User := str "DefaultUser"; CreatedAt := 0%Z |}];
           sqlite_sequence := 1; current_timestamp := 0%Z |},
        HttpWrite (str "text/plain") (str "Link added successfully!")).
Proof.
  split; [|split; [|split]].
  - apply (UpdateLinkHandler_answers (examples.table []) (str " docs/ ") (str "x"));
      [discriminate | reflexivity].
  - apply (UpdateLinkHandler_answers (examples.table []) (str "docs") (str " docs "));
      [discriminate | reflexivity | discriminate | reflexivity].
  - apply (UpdateLinkHandler_answers (examples.table []) (str "docs")
                                     (str "docs.example.com"));
      [discriminate | reflexivity | discriminate | vm_compute; discriminate
      | reflexivity].
  - refine (eq_trans
              (proj2 (proj2 (proj2 (proj2 (proj2 (proj2
                 (UpdateLinkHandler_answers
                    (examples.table []) (str " docs ")
                    (str " https://docs.example.com ") 7%Z))))))
                 _ _ _ _ _) _);
      [discriminate | reflexivity | discriminate | vm_compute; discriminate
      | reflexivity | reflexivity].
Defined.


